(** * Password strength engine ([password_strength.py]): model and verification

    The scoring engine of the repository is embedded function by function.
    A password is a Python [str]; the model covers the code points
    U+0000..U+00FF, one [ascii] per code point, with the character predicates
    and the case mapping of Python's Unicode tables on that range.  Python
    integers are [Z].  Python floats are IEEE-754 binary64 numbers, taken from
    the Standard Library's executable specification [SpecFloat].  Exceptions
    are a result type.  The dictionaries the engine returns are records, a
    key that may be absent an [option]; the feedback messages are kept as the
    bytes of the source text. *)

From Stdlib Require Import ZArith NArith List Bool Ascii String Lia.
From Stdlib Require Import DecimalString Floats.SpecFloat.
Import ListNotations.

Open Scope string_scope.
Open Scope Z_scope.

(** ** Python strings *)

Module PyStr.

(** Code point of a character. *)
Definition code (c : ascii) : N := N_of_ascii c.

Definition between (lo hi : N) (c : ascii) : bool :=
  ((lo <=? code c) && (code c <=? hi))%N.

Definition at_code (n : N) (c : ascii) : bool := (code c =? n)%N.

(** [str.islower], [str.isupper], [str.isdigit] and [str.isalnum] on one
    character, for the code points below 256.  On this range no character is
    in two of the classes lower, upper, digit and symbol; beyond it some are
    (U+24D0 is lower-case and not alphanumeric), so nothing below is derived
    from the classes excluding one another. *)
Definition islower (c : ascii) : bool :=
  between 97 122 c || at_code 170 c || at_code 181 c || at_code 186 c
  || between 223 246 c || between 248 255 c.

Definition isupper (c : ascii) : bool :=
  between 65 90 c || between 192 214 c || between 216 222 c.

Definition isdigit (c : ascii) : bool :=
  between 48 57 c || between 178 179 c || at_code 185 c.

Definition isalnum (c : ascii) : bool :=
  islower c || isupper c || isdigit c || between 188 190 c.

(** [str.lower] on one character: the upper-case letters move 32 up. *)
Definition lower_char (c : ascii) : ascii :=
  if isupper c then ascii_of_N (code c + 32) else c.

Fixpoint map (f : ascii -> ascii) (s : string) : string :=
  match s with
  | EmptyString => EmptyString
  | String c t => String (f c) (map f t)
  end.

(** [p.lower()].  On the code points below 256 Python lower-cases character
    by character; beyond them it does not (U+0130 becomes two characters), so
    the statements on reversal below are put on the lower-cased form. *)
Definition lower (p : string) : string := map lower_char p.

(** [any(f(c) for c in p)] *)
Fixpoint any (f : ascii -> bool) (p : string) : bool :=
  match p with
  | EmptyString => false
  | String c t => f c || any f t
  end.

(** [all(f(c) for c in p)] *)
Fixpoint all (f : ascii -> bool) (p : string) : bool :=
  match p with
  | EmptyString => true
  | String c t => f c && all f t
  end.

(** [needle in hay]: [needle] starts at some position of [hay]. *)
Fixpoint contains (needle hay : string) : bool :=
  prefix needle hay
  || match hay with
     | EmptyString => false
     | String _ t => contains needle t
     end.

(** [s[::-1]] *)
Fixpoint rev (s : string) : string :=
  match s with
  | EmptyString => EmptyString
  | String c t => rev t ++ String c EmptyString
  end.

(** [s * n] *)
Fixpoint times (s : string) (n : nat) : string :=
  match n with
  | O => EmptyString
  | S k => s ++ times s k
  end.

(** [s[i:i+n]] *)
Definition slice (i n : nat) (s : string) : string := substring i n s.

(** [range(n)] for a Python integer [n]. *)
Definition range (n : Z) : list nat := seq 0 (Z.to_nat n).

Definition len (s : string) : Z := Z.of_nat (String.length s).

End PyStr.

(** ** Exceptions *)

Inductive exn := OverflowError | ValueError | ZeroDivisionError | IndexError.

Inductive res (A : Type) : Type :=
| Ok (a : A)
| Raise (e : exn).
Arguments Ok {A} a.
Arguments Raise {A} e.

Definition bind {A B : Type} (m : res A) (k : A -> res B) : res B :=
  match m with
  | Ok a => k a
  | Raise e => Raise e
  end.

Notation "x <- m ;; k" := (bind m (fun x => k))
  (at level 61, m at next level, right associativity).
Notation "' pat <- m ;; k" := (bind m (fun x => match x with pat => k end))
  (at level 61, pat pattern, m at next level, right associativity).

(** ** Python floats *)

Module PyFloat.

Definition float := spec_float.
Definition prec : Z := 53.
Definition emax : Z := 1024.

Definition mul : float -> float -> float := SFmul prec emax.
Definition div : float -> float -> float := SFdiv prec emax.
Definition sub : float -> float -> float := SFsub prec emax.
Definition ltb : float -> float -> bool := SFltb.
Definition leb : float -> float -> bool := SFleb.

(** The float nearest to an integer.  Where the code converts an integer
    that may be too large for a float, [float_of_int] adds the exception. *)
Definition of_int (n : Z) : float := binary_normalize prec emax n 0 false.

Definition zero : float := S754_zero false.

Definition is_finite (x : float) : bool :=
  match x with
  | S754_zero _ | S754_finite _ _ _ => true
  | _ => false
  end.

Definition is_zero (x : float) : bool :=
  match x with
  | S754_zero _ => true
  | _ => false
  end.

(** A float that is zero or positive, finite and in canonical form. *)
Definition is_nonneg_finite (x : float) : bool :=
  match x with
  | S754_zero false => true
  | S754_finite false m e => bounded prec emax m e
  | _ => false
  end.

Definition float_of_int (n : Z) : res float :=
  let x := of_int n in
  if is_finite x then Ok x else Raise OverflowError.

(** [a / b] on two Python integers: the float nearest to the quotient. *)
Definition int_truediv (a b : Z) : res float :=
  match a, b with
  | _, Z0 => Raise ZeroDivisionError
  | Z0, Zpos _ => Ok (S754_zero false)
  | Z0, Zneg _ => Ok (S754_zero true)
  | Zpos ma, Zpos mb | Zneg ma, Zneg mb =>
      let q := div (S754_finite false ma 0) (S754_finite false mb 0) in
      if is_finite q then Ok q else Raise OverflowError
  | Zpos ma, Zneg mb | Zneg ma, Zpos mb =>
      let q := div (S754_finite true ma 0) (S754_finite false mb 0) in
      if is_finite q then Ok q else Raise OverflowError
  end.

(** [x / y] on floats. *)
Definition truediv (x y : float) : res float :=
  if is_zero y then Raise ZeroDivisionError else Ok (div x y).

(** [int(x)]: the integer part, towards zero. *)
Definition to_int (x : float) : res Z :=
  match x with
  | S754_zero _ => Ok 0
  | S754_infinity _ => Raise OverflowError
  | S754_nan => Raise ValueError
  | S754_finite s m e =>
      let a := match e with
               | Zneg k => Zpos m / 2 ^ Zpos k
               | _ => Zpos m * 2 ^ e
               end in
      Ok (if s then - a else a)
  end.

(** The integer nearest to [num / den], ties to even ([0 < den]). *)
Definition div_half_even (num den : Z) : Z :=
  let q := num / den in
  let r := num mod den in
  match 2 * r ?= den with
  | Lt => q
  | Eq => if Z.even q then q else q + 1
  | Gt => q + 1
  end.

(** The absolute value of a finite float in hundredths, to the nearest
    integer, ties to even: the decimal digits that [%.2f] and [round(x, 2)]
    keep. *)
Definition hundredths (m : positive) (e : Z) : Z :=
  match e with
  | Zneg k => div_half_even (Zpos m * 100) (2 ^ Zpos k)
  | _ => Zpos m * 2 ^ e * 100
  end.

Definition decimal (n : Z) : string :=
  NilEmpty.string_of_uint (N.to_uint (Z.to_N n)).

Definition two_digits (n : Z) : string :=
  if n <? 10 then "0" ++ decimal n else decimal n.

Definition fixed2 (h : Z) : string :=
  decimal (h / 100) ++ "." ++ two_digits (h mod 100).

(** [f"{x:.2f}"] *)
Definition format_2f (x : float) : string :=
  match x with
  | S754_nan => "nan"
  | S754_infinity s => if s then "-inf" else "inf"
  | S754_zero s => if s then "-0.00" else "0.00"
  | S754_finite s m e =>
      (if s then "-" else "") ++ fixed2 (hundredths m e)
  end.

(** [round(x, 2)]: the float nearest to the two-decimal rounding of [x]. *)
Definition round2 (x : float) : float :=
  match x with
  | S754_finite s m (Zneg k) =>
      match hundredths m (Zneg k) with
      | Zpos h => div (S754_finite s h 0) (S754_finite false 100 0)
      | _ => S754_zero s
      end
  | _ => x
  end.

End PyFloat.

Abbreviation float := PyFloat.float.

(** The C library's [log2] and [pow], which [math.log2] and the float power
    operator call, are outside the repository: the model takes them as an
    interface.  All it asks of [log2] is that on the integers from 1 to 95,
    where the pool sizes lie, the result is a float between 0 and 8. *)
Definition log2_in_range (c : float) : bool :=
  PyFloat.is_nonneg_finite c && PyFloat.leb c (PyFloat.of_int 8).

Class LibM := {
  libm_log2 : float -> float;   (* log2(x) *)
  libm_pow2 : float -> float;   (* pow(2.0, y) *)
  libm_log2_range :
    forall n, 1 <= n <= 95 -> log2_in_range (libm_log2 (PyFloat.of_int n)) = true
}.

(** ** Module constants *)

Definition COMMON_WORDS : list string :=
  [ "password"; "admin"; "welcome"; "qwerty"; "iloveyou"; "letmein";
    "login"; "user"; "test"; "secret"; "dragon"; "football"; "monkey" ].

(** [str.maketrans] table of the leetspeak substitutions, one character each. *)
Definition LEET_MAP (c : ascii) : ascii :=
  (if Ascii.eqb c "@" then "a"
   else if Ascii.eqb c "$" then "s"
   else if Ascii.eqb c "!" then "i"
   else if Ascii.eqb c "1" then "l"
   else if Ascii.eqb c "0" then "o"
   else if Ascii.eqb c "3" then "e"
   else if Ascii.eqb c "5" then "s"
   else if Ascii.eqb c "7" then "t"
   else c)%char.

Definition SEQUENCES : list string :=
  [ "abcdefghijklmnopqrstuvwxyz";
    "ABCDEFGHIJKLMNOPQRSTUVWXYZ";
    "0123456789";
    "qwertyuiopasdfghjklzxcvbnm" ].

(** ** Character classifier *)

Definition _has_lower (p : string) : bool := PyStr.any PyStr.islower p.
Definition _has_upper (p : string) : bool := PyStr.any PyStr.isupper p.
Definition _has_digit (p : string) : bool := PyStr.any PyStr.isdigit p.
Definition _has_symbol (p : string) : bool :=
  PyStr.any (fun c => negb (PyStr.isalnum c)) p.

Definition _char_pool_size (p : string) : Z :=
  let pool := 0 in
  let pool := if _has_lower p then pool + 26 else pool in
  let pool := if _has_upper p then pool + 26 else pool in
  let pool := if _has_digit p then pool + 10 else pool in
  let pool := if _has_symbol p then pool + 33 else pool in
  Z.max pool 1.

(** ** Pattern detectors *)

(** One turn of the inner loop of [_find_sequences]: the window of [seq] at
    [i] against the lower-cased password. *)
Definition sequence_step (lower seq : string) (count : Z) (i : nat) : Z :=
  let chunk := PyStr.slice i 3 seq in
  let count := if PyStr.contains chunk lower then count + 1 else count in
  let count := if PyStr.contains (PyStr.rev chunk) lower then count + 1 else count in
  count.

Definition _find_sequences (p : string) : Z :=
  let count := 0 in
  let lower := PyStr.lower p in
  fold_left
    (fun count seq =>
       fold_left (sequence_step lower seq) (PyStr.range (PyStr.len seq - 2)) count)
    SEQUENCES count.

(** The regular expressions of [_repetition_penalty] all have the shape
    [(.{n})\1{k,}]: a group of [n] characters, none a newline ([.] without
    DOTALL), followed by at least [k] further copies of the text the group
    captured.  [group_repeats_here] is a match that starts at the first
    character, [re_search] tries every start. *)
Definition re_dot (c : ascii) : bool := negb (Ascii.eqb c "010").

Definition group_repeats_here (n k : nat) (s : string) : bool :=
  let g := PyStr.slice 0 n s in
  (String.length g =? n)%nat && PyStr.all re_dot g
  && prefix (PyStr.times g (S k)) s.

Fixpoint re_search (here : string -> bool) (s : string) : bool :=
  here s
  || match s with
     | EmptyString => false
     | String _ t => re_search here t
     end.

Definition _repetition_penalty (p : string) : Z :=
  let penalties := 0 in
  (* (.)\1{2,} *)
  let penalties :=
    if re_search (group_repeats_here 1 2) p then penalties + 1 else penalties in
  (* (..)\1{1,} *)
  let penalties :=
    if re_search (group_repeats_here 2 1) p then penalties + 1 else penalties in
  (* (...)\1{1,} *)
  let penalties :=
    if re_search (group_repeats_here 3 1) p then penalties + 1 else penalties in
  penalties.

(** [COMMON_WORDS] is a set; the count does not depend on the order in which
    the loop visits it. *)
Definition _dictionary_hits (p : string) : Z :=
  let hits := 0 in
  let plain := PyStr.lower p in
  let norm := PyStr.map LEET_MAP plain in
  fold_left
    (fun hits w =>
       if PyStr.contains w plain || PyStr.contains w norm then hits + 1 else hits)
    COMMON_WORDS hits.


(** ** Entropy estimator *)

Section Engine.

Context {M : LibM}.

(** [pool] is at least 1, so [math.log2(pool)] is the C library's [log2] at
    the float of [pool]; a [str] is shorter than [2^63] characters, so
    [len(p)] always converts to a float. *)
Definition estimate_entropy_bits (p : string) : float :=
  let pool := _char_pool_size p in
  PyFloat.mul (PyFloat.of_int (PyStr.len p)) (libm_log2 (PyFloat.of_int pool)).

(** ** Crack-time projector *)

(** A Python number: [crack_time_estimates] receives the integer [0] from the
    empty-password branch and a float otherwise. *)
Inductive num :=
| Int (n : Z)
| Float (x : float).

(** [a - 1] *)
Definition num_sub1 (a : num) : num :=
  match a with
  | Int n => Int (n - 1)
  | Float x => Float (PyFloat.sub x (PyFloat.of_int 1))
  end.

(** [max(a, 0)]: the second argument replaces the first when [0 > a]. *)
Definition num_max0 (a : num) : num :=
  match a with
  | Int n => if 0 >? n then Int 0 else a
  | Float x => if PyFloat.ltb x PyFloat.zero then Int 0 else a
  end.

(** [2.0 ** y] on floats ([float_pow]): the special cases, then the C
    library, whose overflow becomes [OverflowError]. *)
Definition float_pow2 (y : float) : res float :=
  match y with
  | S754_zero _ => Ok (PyFloat.of_int 1)
  | S754_nan => Ok S754_nan
  | S754_infinity false => Ok (S754_infinity false)
  | S754_infinity true => Ok PyFloat.zero
  | S754_finite _ _ _ =>
      match libm_pow2 y with
      | S754_infinity _ => Raise OverflowError
      | r => Ok r
      end
  end.

(** [2 ** a] *)
Definition num_pow2 (a : num) : res num :=
  match a with
  | Int n =>
      if 0 <=? n then Ok (Int (2 ^ n))
      else y <- PyFloat.float_of_int n ;; r <- float_pow2 y ;; Ok (Float r)
  | Float y => r <- float_pow2 y ;; Ok (Float r)
  end.

(** [a / b] *)
Definition num_truediv (a b : num) : res float :=
  match a, b with
  | Int x, Int y => PyFloat.int_truediv x y
  | Int x, Float y => x' <- PyFloat.float_of_int x ;; PyFloat.truediv x' y
  | Float x, Int y => y' <- PyFloat.float_of_int y ;; PyFloat.truediv x y'
  | Float x, Float y => PyFloat.truediv x y
  end.

Definition units : list (string * Z) :=
  [ ("sec", 1); ("min", 60); ("hr", 3600); ("day", 86400);
    ("yr", 31557600); ("century", 3155760000) ].

(** The loop of [humanize] over the units still to try; the spans are not
    zero, so [s/span] is the float quotient. *)
Fixpoint humanize_from (us : list (string * Z)) (s : float) : string :=
  match us with
  | [] => PyFloat.format_2f s ++ " sec"
  | (name, span) :: rest =>
      if PyFloat.ltb s (PyFloat.of_int (span * 60)) || (name =? "century")%string
      then PyFloat.format_2f (PyFloat.div s (PyFloat.of_int span)) ++ " " ++ name
      else humanize_from rest s
  end.

Definition humanize (s : float) : string := humanize_from units s.

Record Estimates := {
  offline_fast : string;
  online_slow : string
}.

(** The default of [guesses_per_sec], [1e10]. *)
Definition default_guesses_per_sec : float := PyFloat.of_int 10000000000.

Definition expected_guesses (bits : num) : res num :=
  num_pow2 (num_max0 (num_sub1 bits)).

Definition crack_time_estimates (bits : num) (guesses_per_sec : float)
  : res Estimates :=
  expected_guesses <- expected_guesses bits ;;
  seconds <- num_truediv expected_guesses (Float guesses_per_sec) ;;
  slow <- num_truediv expected_guesses (Int 100) ;;
  Ok {| offline_fast := humanize seconds;
        online_slow := humanize slow |}.

(** ** Score aggregator *)

Record PenaltyDetail := {
  sequences : Z;
  repeats : Z;
  dictionary_hits : Z
}.

(** The dictionary [score_password] returns.  The key [penalty_detail] is not
    in every result: [None] is its absence. *)
Record AnalysisResult := {
  score : Z;
  label : string;
  bits : float;
  penalty_detail : option PenaltyDetail;
  feedback : list string;
  estimates : Estimates
}.

Definition msg_empty := "Password is empty.".
Definition msg_length := "Use at least 8–12 characters.".
Definition msg_sequences := "Avoid sequential patterns (e.g., abc, 123, qwerty).".
Definition msg_repeats := "Avoid repeated patterns like aaa or abcabc.".
Definition msg_dictionary := "Avoid common or leetspeak words (e.g., 'p@ssw0rd').".
Definition msg_upper := "Add uppercase letters.".
Definition msg_lower := "Add lowercase letters.".
Definition msg_digit := "Add digits.".
Definition msg_symbol := "Add symbols (e.g., !@#$).".

(** [lst.append(x)] *)
Definition list_append (lst : list string) (x : string) : list string :=
  (lst ++ [x])%list.

(** [lst[i]] *)
Definition list_get (l : list Z) (i : Z) : res Z :=
  match nth_error l (Z.to_nat i) with
  | Some v => Ok v
  | None => Raise IndexError
  end.

(** The local variables of [score_password] that later statements read. *)
Record Locals := {
  l_bits : float;
  l_score : Z;
  l_feedback : list string;
  l_seqs : Z;
  l_reps : Z;
  l_dicts : Z;
  l_label : string
}.

(** The non-empty branch up to the entropy bonus: [bits], [score] and
    [feedback] before the penalties. *)
Definition score_before_penalty (p : string) : res (float * Z * list string) :=
  let bits := estimate_entropy_bits p in
  let score := 0 in
  let feedback : list string := [] in
  (* length *)
  let L := PyStr.len p in
  let '(score, feedback) :=
    if L <? 6 then (score + 0, list_append feedback msg_length)
    else if L <? 8 then (score + 10, feedback)
    else if L <? 12 then (score + 20, feedback)
    else if L <? 16 then (score + 30, feedback)
    else (score + 40, feedback) in
  (* variety *)
  let varieties :=
    Z.b2z (_has_lower p) + Z.b2z (_has_upper p)
    + Z.b2z (_has_digit p) + Z.b2z (_has_symbol p) in
  v <- list_get [0; 10; 20; 30; 35] varieties ;;
  let score := score + v in
  (* positive bonus for bits *)
  b <- PyFloat.to_int (PyFloat.div bits (PyFloat.of_int 4)) ;;
  let score := score + Z.min b 25 in
  Ok (bits, score, feedback).

Definition label_of (score : Z) : string :=
  if score <? 20 then "Very Weak"
  else if score <? 40 then "Weak"
  else if score <? 60 then "Moderate"
  else if score <? 80 then "Strong"
  else "Excellent".

(** The non-empty branch up to the [return] statement. *)
Definition score_locals (p : string) : res Locals :=
  '(bits, score, feedback) <- score_before_penalty p ;;
  (* penalties *)
  let seqs := _find_sequences p in
  let reps := _repetition_penalty p in
  let dicts := _dictionary_hits p in
  let penalty := seqs * 8 + reps * 8 + dicts * 12 in
  let score := Z.max 0 (Z.min 100 (score - penalty)) in
  let feedback := if seqs =? 0 then feedback else list_append feedback msg_sequences in
  let feedback := if reps =? 0 then feedback else list_append feedback msg_repeats in
  let feedback := if dicts =? 0 then feedback else list_append feedback msg_dictionary in
  let feedback := if negb (_has_upper p) then list_append feedback msg_upper else feedback in
  let feedback := if negb (_has_lower p) then list_append feedback msg_lower else feedback in
  let feedback := if negb (_has_digit p) then list_append feedback msg_digit else feedback in
  let feedback := if negb (_has_symbol p) then list_append feedback msg_symbol else feedback in
  let label := label_of score in
  Ok {| l_bits := bits; l_score := score; l_feedback := feedback;
        l_seqs := seqs; l_reps := reps; l_dicts := dicts; l_label := label |}.

Definition score_password (p : string) : res AnalysisResult :=
  if (p =? "")%string then
    est <- crack_time_estimates (Int 0) default_guesses_per_sec ;;
    Ok {| score := 0; label := "Very Weak"; bits := PyFloat.zero;
          penalty_detail := None;
          feedback := [msg_empty]; estimates := est |}
  else
    st <- score_locals p ;;
    let rounded := PyFloat.round2 (l_bits st) in
    est <- crack_time_estimates (Float (l_bits st)) default_guesses_per_sec ;;
    Ok {| score := l_score st;
          label := l_label st;
          bits := rounded;
          penalty_detail :=
            Some {| sequences := l_seqs st; repeats := l_reps st;
                    dictionary_hits := l_dicts st |};
          feedback := l_feedback st;
          estimates := est |}.

End Engine.

(** ** A reference C library

    [log2] and [pow(2.0, .)] computed in fixed point with [fbits] fractional
    bits and rounded to the nearest float.  It makes the model run; the
    theorems below hold for every [LibM]. *)

Module RefLibM.

Definition fbits : Z := 192.
Definition obits : Z := 90.

(** Binary logarithm of [y / 2^fbits] in [[1, 2)], [n] bits after the
    point, by repeated squaring. *)
Fixpoint log2_frac (n : nat) (y acc : Z) : Z :=
  match n with
  | O => acc
  | S k =>
      let y2 := Z.shiftr (y * y) fbits in
      if 2 ^ (fbits + 1) <=? y2
      then log2_frac k (Z.shiftr y2 1) (2 * acc + 1)
      else log2_frac k y2 (2 * acc)
  end.

Definition log2 (x : float) : float :=
  match x with
  | S754_nan => S754_nan
  | S754_zero _ => S754_infinity true
  | S754_infinity s => if s then S754_nan else x
  | S754_finite true _ _ => S754_nan
  | S754_finite false m e =>
      let d := Z.log2 (Zpos m) in
      let y := Z.shiftl (Zpos m) (fbits - d) in
      let frac := log2_frac (Z.to_nat obits) y 0 in
      binary_normalize PyFloat.prec PyFloat.emax
        ((e + d) * 2 ^ obits + frac) (- obits) false
  end.

(** [2^(f / 2^obits)] in fixed point for [0 <= f < 2^obits]: the product of
    the roots [2^(1/2), 2^(1/4), ...] at the bits of [f] that are set,
    from the most significant bit down; [root] is the root before the one
    for the current bit. *)
Fixpoint exp2_frac (n : nat) (f root acc : Z) : Z :=
  match n with
  | O => acc
  | S k =>
      let root' := Z.sqrt (Z.shiftl root fbits) in
      let acc' :=
        if Z.testbit f (Z.of_nat k) then Z.shiftr (acc * root') fbits else acc in
      exp2_frac k f root' acc'
  end.

Definition pow2 (y : float) : float :=
  match y with
  | S754_nan => S754_nan
  | S754_zero _ => PyFloat.of_int 1
  | S754_infinity s => if s then PyFloat.zero else y
  | S754_finite s m e =>
      if 12 <=? Z.log2 (Zpos m) + 1 + e then
        (if s then PyFloat.zero else S754_infinity false)
      else
        let a := if s then Zneg m else Zpos m in
        let t := Z.shiftl a (e + obits) in
        let k := Z.shiftr t obits in
        let f := Z.land t (2 ^ obits - 1) in
        let r := exp2_frac (Z.to_nat obits) f (2 ^ (fbits + 1)) (2 ^ fbits) in
        binary_normalize PyFloat.prec PyFloat.emax r (k - fbits) false
  end.

End RefLibM.

Lemma ref_log2_range (n : Z) :
  1 <= n <= 95 -> log2_in_range (RefLibM.log2 (PyFloat.of_int n)) = true.
Proof.
  intros H.
  assert (A : forallb (fun k => log2_in_range (RefLibM.log2 (PyFloat.of_int (Z.of_nat k))))
                (seq 1 95) = true) by (vm_compute; reflexivity).
  rewrite forallb_forall in A. specialize (A (Z.to_nat n)).
  rewrite Z2Nat.id in A by lia. apply A. apply in_seq. lia.
Qed.

#[export] Instance ref_libm : LibM :=
  {| libm_log2 := RefLibM.log2;
     libm_pow2 := RefLibM.pow2;
     libm_log2_range := ref_log2_range |}.

(** * Definitions for the statements

    What the theorems below speak of: the value of a float as an integer,
    rounding as integer arithmetic, and the readings the specification gives
    of the detectors, the humanizer and the score. *)

Module FloatSpec.

Import PyFloat.

(** The exponent binary64 gives a number of magnitude [2^x]. *)
Definition fexp64 (x : Z) : Z := Z.max (x - 53) (-1074).

(** Rounding to nearest-even of the integer [W] counted in units of
    [2^-2148]. *)
Definition round_int (W : Z) : float :=
  let E := fexp64 (Zdigits2 W - 2148) in
  let q := div_half_even W (2 ^ (E + 2148)) in
  if q =? 0 then S754_zero false
  else if q <? 2 ^ 53 then
         if E <=? 971 then S754_finite false (Z.to_pos q) E else S754_infinity false
       else
         if E + 1 <=? 971 then S754_finite false (Z.to_pos (2 ^ 52)) (E + 1)
         else S754_infinity false.

(** A canonical float that is zero, positive or plus infinity. *)
Definition nonneg_float (x : float) : Prop :=
  match x with
  | S754_zero false | S754_infinity false => True
  | S754_finite false m e => bounded prec emax m e = true
  | _ => False
  end.

(** The value of such a float in units of [2^-1074]; infinity sits above
    every finite value. *)
Definition val (x : float) : Z :=
  match x with
  | S754_finite false m e => Zpos m * 2 ^ (e + 1074)
  | S754_infinity false => 2 ^ 2098
  | _ => 0
  end.

(** Exponent and mantissa of the rounding of [W]. *)
Definition rexp (W : Z) : Z := fexp64 (Zdigits2 W - 2148).

Definition rmant (W : Z) : Z := div_half_even W (2 ^ (rexp W + 2148)).

(** The rounded value, in units of [2^-1074]. *)
Definition rv (W : Z) : Z := rmant W * 2 ^ (rexp W + 1074).

(** A canonical float that is zero or positive and finite. *)
Definition finite_nonneg (x : float) : Prop :=
  match x with
  | S754_zero false => True
  | S754_finite false m e => bounded prec emax m e = true
  | _ => False
  end.

(** A finite float of sign [s]. *)
Definition finite_signed (s : bool) (x : float) : Prop :=
  match x with
  | S754_zero s' | S754_finite s' _ _ => s' = s
  | _ => False
  end.

(** The float [4.0]. *)
Definition four : float := S754_finite false 4503599627370496 (-50).

(** The integer part of a float, towards minus infinity. *)
Definition float_floor (x : float) : Z :=
  match x with
  | S754_finite s m e =>
      let n := if s then Zneg m else Zpos m in
      match e with
      | Zneg k => n / 2 ^ Zpos k
      | _ => n * 2 ^ e
      end
  | _ => 0
  end.

End FloatSpec.

(** The alphabets of [SEQUENCES], by name. *)
Definition LOWER_ALPHABET := "abcdefghijklmnopqrstuvwxyz".

Definition UPPER_ALPHABET := "ABCDEFGHIJKLMNOPQRSTUVWXYZ".

Definition DIGITS := "0123456789".

Definition KEYBOARD_ROW := "qwertyuiopasdfghjklzxcvbnm".

(** What one window adds to the count. *)
Definition window_hits (lower seq : string) (i : nat) : Z :=
  Z.b2z (PyStr.contains (PyStr.slice i 3 seq) lower)
  + Z.b2z (PyStr.contains (PyStr.rev (PyStr.slice i 3 seq)) lower).

(** The claim's reading of a window: it counts, once, when the chunk or its
    reverse occurs in the password ignoring case. *)
Definition occurs_ignoring_case (chunk p : string) : bool :=
  PyStr.contains (PyStr.lower chunk) (PyStr.lower p).

Definition window_counts_spec (p seq : string) (i : nat) : bool :=
  occurs_ignoring_case (PyStr.slice i 3 seq) p
  || occurs_ignoring_case (PyStr.rev (PyStr.slice i 3 seq)) p.

Definition sumZ (l : list Z) : Z := fold_right Z.add 0 l.

(** What one alphabet adds to the count. *)
Definition alphabet_hits (lower seq : string) : Z :=
  sumZ (map (window_hits lower seq) (PyStr.range (PyStr.len seq - 2))).

(** A unit fits a duration that is strictly below sixty of its spans. *)
Definition fits (s : float) (u : string * Z) : bool :=
  PyFloat.ltb s (PyFloat.of_int (snd u * 60)).

(** The last unit. *)
Definition century : string * Z := ("century", 3155760000).

(** The first unit of the list, so the smallest, that fits. *)
Definition first_fitting_unit (s : float) : string * Z :=
  match find (fits s) units with
  | Some u => u
  | None => century
  end.

(** The claim's reading: the largest unit that fits. *)
Definition largest_fitting_unit_spec (s : float) : string * Z :=
  match find (fits s) (rev units) with
  | Some u => u
  | None => century
  end.

(** The duration in a given unit, as the humanizer prints it. *)
Definition render (s : float) (u : string * Z) : string :=
  PyFloat.format_2f (PyFloat.div s (PyFloat.of_int (snd u))) ++ " " ++ fst u.

Section Readings.

Context {M : LibM}.

(** The number of character classes present, the pool, the length band, the
    variety score, the entropy bonus and the penalty, as the specification
    words them. *)
Definition class_count (p : string) : Z :=
  Z.b2z (_has_lower p) + Z.b2z (_has_upper p)
  + Z.b2z (_has_digit p) + Z.b2z (_has_symbol p).

Definition pool_spec (p : string) : Z :=
  Z.max 1
    ((if _has_lower p then 26 else 0) + (if _has_upper p then 26 else 0)
     + (if _has_digit p then 10 else 0) + (if _has_symbol p then 33 else 0)).

Definition length_band_spec (L : Z) : Z :=
  if L <? 6 then 0
  else if L <=? 7 then 10
  else if L <=? 11 then 20
  else if L <=? 15 then 30
  else 40.

Definition variety_spec (n : Z) : Z :=
  match n with
  | 0 => 0
  | 1 => 10
  | 2 => 20
  | 3 => 30
  | 4 => 35
  | _ => 0
  end.

Definition entropy_bonus_spec (bits : float) : Z :=
  Z.min (FloatSpec.float_floor (PyFloat.div bits (PyFloat.of_int 4))) 25.

Definition penalty_spec (p : string) : Z :=
  _find_sequences p * 8 + _repetition_penalty p * 8 + _dictionary_hits p * 12.

(** The feedback list, in the order the code appends to it. *)
Definition feedback_spec (p : string) : list string :=
  ((if PyStr.len p <? 6 then [msg_length] else [])
   ++ (if 0 <? _find_sequences p then [msg_sequences] else [])
   ++ (if 0 <? _repetition_penalty p then [msg_repeats] else [])
   ++ (if 0 <? _dictionary_hits p then [msg_dictionary] else [])
   ++ (if _has_upper p then [] else [msg_upper])
   ++ (if _has_lower p then [] else [msg_lower])
   ++ (if _has_digit p then [] else [msg_digit])
   ++ (if _has_symbol p then [] else [msg_symbol]))%list.

Definition label_spec (score : Z) : string :=
  if score <? 20 then "Very Weak"
  else if score <? 40 then "Weak"
  else if score <? 60 then "Moderate"
  else if score <? 80 then "Strong"
  else "Excellent".

Definition raw_spec (p : string) : Z :=
  length_band_spec (PyStr.len p) + variety_spec (class_count p)
  + entropy_bonus_spec (estimate_entropy_bits p).

Definition final_spec (p : string) : Z :=
  Z.max 0 (Z.min 100 (raw_spec p - penalty_spec p)).

End Readings.

(** ** Further readings of the code *)

(** A common word is found in a password when it occurs in the lower-cased,
    leetspeak-normalised password. *)
Definition word_found (p w : string) : bool :=
  PyStr.contains w (PyStr.map LEET_MAP (PyStr.lower p)).

(** The pool sizes that can occur. *)
Definition POOL_SIZES : list Z := [1; 10; 26; 33; 36; 43; 52; 59; 62; 69; 85; 95].

Section FurtherReadings.

Context {M : LibM}.

(** The float power of [crack_time_estimates] overflows: the exponent
    [bits - 1] is a finite float that is not below zero, and the C library
    answers infinity. *)
Definition pow_overflows (b : float) : bool :=
  match PyFloat.sub b (PyFloat.of_int 1) with
  | S754_finite s m e =>
      negb (PyFloat.ltb (S754_finite s m e) PyFloat.zero)
      && match libm_pow2 (S754_finite s m e) with
         | S754_infinity _ => true
         | _ => false
         end
  | _ => false
  end.

End FurtherReadings.

(** * Sanity checks: the model on the spec's examples *)

Example seq_abcdef : _find_sequences "abcdef" = 4.
Proof. reflexivity. Qed.

Example seq_none : _find_sequences "xk4#Lm9@" = 0.
Proof. reflexivity. Qed.

Example rep_all : _repetition_penalty "aaaabcabcabab" = 3.
Proof. reflexivity. Qed.

Example dict_pw : _dictionary_hits "Password123" = 1.
Proof. reflexivity. Qed.

Example dict_leet : _dictionary_hits "p@ssw0rd" = 1.
Proof. reflexivity. Qed.

Example ref_log2_10 :
  RefLibM.log2 (PyFloat.of_int 10) = S754_finite false 0x1a934f0979a371 (-51).
Proof. vm_compute. reflexivity. Qed.

Example ref_log2_95 :
  RefLibM.log2 (PyFloat.of_int 95) = S754_finite false 0x1a47883a84e4f9 (-50).
Proof. vm_compute. reflexivity. Qed.

Example ref_pow2_half :
  RefLibM.pow2 (PyFloat.div (PyFloat.of_int 1) (PyFloat.of_int 2))
  = S754_finite false 0x16a09e667f3bcd (-52).
Proof. vm_compute. reflexivity. Qed.

Example end_to_end_weak :
  exists r, score_password "Password123" = Ok r /\ score r = 38 /\ label r = "Weak".
Proof. eexists. split; [vm_compute; reflexivity | split; reflexivity]. Qed.

Example end_to_end_strong :
  exists r, score_password "Taco!River7-Moons" = Ok r
            /\ score r = 100 /\ label r = "Excellent".
Proof. eexists. split; [vm_compute; reflexivity | split; reflexivity]. Qed.

(** * Floats: rounding to nearest as integer arithmetic

    [SpecFloat] rounds by shifting a mantissa right and keeping two sticky
    bits.  On a mantissa that has at least its 53 bits the result is read off
    the exact value, an integer [W] counted in units of [2^-2148]; from there
    follow the order of floats as the order of their values, the monotonicity
    of rounding, and the bounds that keep a result finite. *)

Module FloatFacts.

Import PyFloat FloatSpec.

Lemma iter_pos_nat {A} (f : A -> A) (p : positive) (x : A) :
  iter_pos f p x = Nat.iter (Pos.to_nat p) f x.
Proof.
  revert x; induction p as [p IH | p IH |]; intros x; cbn [iter_pos].
  - rewrite !IH, Pos2Nat.inj_xI.
    replace (S (2 * Pos.to_nat p)) with (Pos.to_nat p + (Pos.to_nat p + 1))%nat by lia.
    rewrite !Nat.iter_add. reflexivity.
  - rewrite !IH, Pos2Nat.inj_xO.
    replace (2 * Pos.to_nat p)%nat with (Pos.to_nat p + Pos.to_nat p)%nat by lia.
    rewrite Nat.iter_add. reflexivity.
  - reflexivity.
Qed.

Lemma digits2_size (p : positive) : digits2_pos p = Pos.size p.
Proof. induction p; simpl; congruence. Qed.

Lemma Zdigits2_log2 (m : Z) : 0 < m -> Zdigits2 m = Z.log2 m + 1.
Proof.
  destruct m as [| p | p]; try lia. intros _. unfold Zdigits2.
  rewrite digits2_size. destruct p; simpl; rewrite ?Pos2Z.inj_succ; lia.
Qed.

Lemma Zdigits2_bounds (m : Z) : 0 < m -> 2 ^ (Zdigits2 m - 1) <= m < 2 ^ Zdigits2 m.
Proof.
  intros H. rewrite Zdigits2_log2 by exact H.
  replace (Z.log2 m + 1 - 1) with (Z.log2 m) by lia.
  replace (Z.log2 m + 1) with (Z.succ (Z.log2 m)) by lia.
  apply Z.log2_spec; exact H.
Qed.

Lemma Zdigits2_unique (m d : Z) : 2 ^ (d - 1) <= m < 2 ^ d -> 0 < m -> Zdigits2 m = d.
Proof.
  intros H Hm. rewrite Zdigits2_log2 by exact Hm.
  assert (0 < d). { destruct (Z.le_gt_cases d 0) as [Hd|]; [|lia]. 
     assert (2 ^ d <= 2 ^ 0) by (apply Z.pow_le_mono_r; lia). simpl in *. lia. }
  rewrite (Z.log2_unique m (d - 1)); try lia.
  replace (Z.succ (d - 1)) with d by lia. lia.
Qed.

Lemma shr_1_m (r : shr_record) : 0 <= shr_m r -> shr_m (shr_1 r) = shr_m r / 2.
Proof.
  destruct r as [m r s]. simpl. intros H.
  destruct m as [| [p | p |] | p]; try lia; cbn [shr_m].
  - reflexivity.
  - rewrite Pos2Z.inj_xI. apply (Z.div_unique _ _ _ 1); lia.
  - rewrite Pos2Z.inj_xO. apply (Z.div_unique _ _ _ 0); lia.
  - reflexivity.
Qed.

Lemma shr_1_r (r : shr_record) : 0 <= shr_m r -> shr_r (shr_1 r) = Z.odd (shr_m r).
Proof.
  destruct r as [m r s]. simpl. intros H.
  destruct m as [| [p | p |] | p]; try lia; reflexivity.
Qed.

Lemma shr_1_s (r : shr_record) : shr_s (shr_1 r) = shr_r r || shr_s r.
Proof.
  destruct r as [m r s]. simpl.
  destruct m as [| [p | p |] | [p | p |]]; reflexivity.
Qed.

Lemma shr_iter_m (n : nat) (r : shr_record) :
  0 <= shr_m r -> shr_m (Nat.iter n shr_1 r) = shr_m r / 2 ^ Z.of_nat n.
Proof.
  intros H. induction n as [| n IH].
  - simpl. now rewrite Z.div_1_r.
  - rewrite Nat.iter_succ, shr_1_m.
    + rewrite IH, Nat2Z.inj_succ, Z.pow_succ_r by lia.
      rewrite Z.div_div by lia. f_equal. lia.
    + rewrite IH. apply Z.div_pos; lia.
Qed.

Lemma shr_iter_loc (n : nat) (m0 : Z) :
  0 <= m0 ->
  let R := Nat.iter (S n) shr_1 (Build_shr_record m0 false false) in
  shr_r R = Z.odd (m0 / 2 ^ Z.of_nat n)
  /\ shr_s R = negb (m0 mod 2 ^ Z.of_nat n =? 0).
Proof.
  intros H. induction n as [| n IH].
  - simpl. rewrite Z.div_1_r, Z.mod_1_r.
    destruct m0 as [| [p | p |] | p]; try lia; split; reflexivity.
  - cbn zeta in *. remember (Nat.iter (S n) shr_1 _) as R eqn:ER.
    rewrite Nat.iter_succ, <- ER.
    assert (Hm : shr_m R = m0 / 2 ^ Z.of_nat (S n)).
    { rewrite ER, shr_iter_m by (simpl; lia). reflexivity. }
    assert (Hp : 0 <= shr_m R) by (rewrite Hm; apply Z.div_pos; lia).
    rewrite shr_1_r by exact Hp. rewrite shr_1_s. destruct IH as [Hr Hs].
    rewrite Hm, Hr, Hs. split; [reflexivity |].
    rewrite Nat2Z.inj_succ, Z.pow_succ_r by lia.
    set (h := 2 ^ Z.of_nat n). assert (0 < h) by (apply Z.pow_pos_nonneg; lia).
    rewrite (Z.mul_comm 2 h), Z.rem_mul_r by lia.
    assert (0 <= m0 mod h < h) by (apply Z.mod_pos_bound; lia).
    assert (0 <= (m0 / h) mod 2 < 2) by (apply Z.mod_pos_bound; lia).
    rewrite (Zmod_odd (m0 / h)) in *.
    destruct (Z.odd (m0 / h)); destruct (Z.eqb_spec (m0 mod h) 0) as [E | E]; simpl;
      symmetry; rewrite ?Z.eqb_eq, ?Z.eqb_neq; nia.
Qed.

Lemma dhe_scale (a D c : Z) : 0 < D -> 0 < c ->
  div_half_even (a * c) (D * c) = div_half_even a D.
Proof.
  intros HD Hc. unfold div_half_even.
  rewrite Z.div_mul_cancel_r by lia.
  rewrite Zmult_mod_distr_r.
  replace (2 * (a mod D * c)) with (2 * (a mod D) * c) by lia.
  rewrite <- Zmult_compare_compat_r by lia. reflexivity.
Qed.

Lemma dhe_bounds (a D : Z) : 0 < D -> a / D <= div_half_even a D <= a / D + 1.
Proof.
  intros HD. unfold div_half_even.
  destruct (2 * (a mod D) ?= D); [destruct (Z.even (a / D)) | |]; lia.
Qed.

Lemma dhe_mono (a b D : Z) : 0 < D -> a <= b ->
  div_half_even a D <= div_half_even b D.
Proof.
  intros HD Hab.
  assert (Hq : a / D <= b / D) by (apply Z.div_le_mono; lia).
  destruct (Z.eq_dec (a / D) (b / D)) as [E | E].
  - pose proof (Z.div_mod a D ltac:(lia)) as Ha.
    pose proof (Z.div_mod b D ltac:(lia)) as Hb.
    assert (Hr : a mod D <= b mod D) by nia.
    unfold div_half_even. rewrite <- E.
    destruct (Z.compare_spec (2 * (a mod D)) D);
      destruct (Z.compare_spec (2 * (b mod D)) D);
      destruct (Z.even (a / D)); lia.
  - pose proof (dhe_bounds a D HD). pose proof (dhe_bounds b D HD). lia.
Qed.

Lemma shr_round (n : nat) (m0 : Z) :
  0 <= m0 ->
  let R := Nat.iter n shr_1 (Build_shr_record m0 false false) in
  round_nearest_even (shr_m R) (loc_of_shr_record R)
  = div_half_even m0 (2 ^ Z.of_nat n).
Proof.
  intros H R. destruct n as [| k].
  - subst R. simpl. unfold div_half_even. rewrite Z.div_1_r, Z.mod_1_r. reflexivity.
  - assert (Hm : shr_m R = m0 / 2 ^ Z.of_nat (S k))
      by (subst R; rewrite shr_iter_m by (simpl; lia); reflexivity).
    destruct (shr_iter_loc k m0 H) as [Hr Hs]. fold R in Hr, Hs.
    unfold div_half_even. rewrite <- Hm.
    rewrite Nat2Z.inj_succ, Z.pow_succ_r by lia.
    set (h := 2 ^ Z.of_nat k) in *. assert (0 < h) by (apply Z.pow_pos_nonneg; lia).
    rewrite (Z.mul_comm 2 h), Z.rem_mul_r by lia.
    assert (0 <= m0 mod h < h) by (apply Z.mod_pos_bound; lia).
    rewrite (Zmod_odd (m0 / h)), <- Hr.
    destruct R as [m r s]. cbn [shr_m shr_r shr_s loc_of_shr_record] in *.
    subst r.
    destruct (Z.odd (m0 / h)); destruct s; cbn [round_nearest_even];
      symmetry in Hs; rewrite ?negb_true_iff, ?negb_false_iff, ?Z.eqb_eq, ?Z.eqb_neq in Hs.
    + replace (2 * (m0 mod h + h * 1) ?= h * 2) with Gt; [reflexivity |].
      symmetry. apply Z.compare_gt_iff. lia.
    + replace (2 * (m0 mod h + h * 1) ?= h * 2) with Eq; [reflexivity |].
      symmetry. apply Z.compare_eq_iff. lia.
    + replace (2 * (m0 mod h + h * 0) ?= h * 2) with Lt; [reflexivity |].
      symmetry. apply Z.compare_lt_iff. lia.
    + replace (2 * (m0 mod h + h * 0) ?= h * 2) with Lt; [reflexivity |].
      symmetry. apply Z.compare_lt_iff. lia.
Qed.

Lemma fexp_fexp64 x : fexp prec emax x = fexp64 x.
Proof. reflexivity. Qed.

Lemma shr_nat (mrs : shr_record) (e n : Z) :
  shr mrs e n = (Nat.iter (Z.to_nat n) shr_1 mrs, e + Z.max 0 n).
Proof.
  destruct n as [| p | p]; simpl.
  - f_equal; lia.
  - rewrite iter_pos_nat. f_equal.
  - f_equal; lia.
Qed.

Lemma Zdigits2_shift (m k : Z) : 0 < m -> 0 <= k -> Zdigits2 (m * 2 ^ k) = Zdigits2 m + k.
Proof.
  intros Hm Hk. pose proof (Zdigits2_bounds m Hm) as [H1 H2].
  assert (0 < Zdigits2 m) by (rewrite Zdigits2_log2 by lia; pose proof (Z.log2_nonneg m); lia).
  assert (0 < 2 ^ k) by (apply Z.pow_pos_nonneg; lia).
  apply Zdigits2_unique; [| nia].
  replace (Zdigits2 m + k - 1) with ((Zdigits2 m - 1) + k) by lia.
  rewrite !Z.pow_add_r by lia. nia.
Qed.

Lemma Zdigits2_le (m d : Z) : 0 <= m -> 0 <= d -> m < 2 ^ d -> Zdigits2 m <= d.
Proof.
  intros Hm Hd H. destruct (Z.eq_dec m 0) as [-> | N]; [simpl; lia |].
  pose proof (Zdigits2_bounds m ltac:(lia)) as [H1 _].
  destruct (Z.le_gt_cases (Zdigits2 m) d) as [L | G]; [exact L | exfalso].
  assert (2 ^ d <= 2 ^ (Zdigits2 m - 1)) by (apply Z.pow_le_mono_r; lia). lia.
Qed.

Lemma round_aux_int (m : positive) (e : Z) :
  -2148 <= e -> e <= fexp64 (Zdigits2 (Zpos m) + e) ->
  binary_round_aux prec emax false (Zpos m) e loc_Exact
  = round_int (Zpos m * 2 ^ (e + 2148)).
Proof.
  intros He Hal.
  unfold round_int. rewrite Zdigits2_shift by lia.
  replace (Zdigits2 (Z.pos m) + (e + 2148) - 2148) with (Zdigits2 (Z.pos m) + e) by lia.
  set (d := Zdigits2 (Z.pos m)) in *.
  set (E := fexp64 (d + e)) in *.
  assert (HE : -1074 <= E) by (unfold E, fexp64; lia).
  assert (HEd : d + e - 53 <= E) by (unfold E, fexp64; lia).
  replace (2 ^ (E + 2148)) with (2 ^ (E - e) * 2 ^ (e + 2148))
    by (rewrite <- Z.pow_add_r by lia; f_equal; lia).
  rewrite dhe_scale by (apply Z.pow_pos_nonneg; lia).
  unfold binary_round_aux, shr_fexp. rewrite !fexp_fexp64. fold d. fold E.
  cbn [shr_record_of_loc]. rewrite shr_nat.
  replace (e + Z.max 0 (E - e)) with E by lia.
  pose proof (shr_round (Z.to_nat (E - e)) (Z.pos m) ltac:(lia)) as Hq.
  cbn zeta in Hq. rewrite Z2Nat.id in Hq by lia. rewrite Hq. clear Hq.
  set (q := div_half_even (Z.pos m) (2 ^ (E - e))).
  assert (Hq : 0 <= q <= 2 ^ 53).
  { pose proof (dhe_bounds (Z.pos m) (2 ^ (E - e)) ltac:(apply Z.pow_pos_nonneg; lia)).
    fold q in H.
    assert (0 <= Z.pos m / 2 ^ (E - e)) by (apply Z.div_pos; [lia | apply Z.pow_pos_nonneg; lia]).
    assert (Z.pos m / 2 ^ (E - e) < 2 ^ 53).
    { apply Z.div_lt_upper_bound; [apply Z.pow_pos_nonneg; lia |].
      rewrite <- Z.pow_add_r by lia.
      pose proof (Zdigits2_bounds (Z.pos m) ltac:(lia)) as [_ Hlt]. fold d in Hlt.
      assert (2 ^ d <= 2 ^ (E - e + 53)) by (apply Z.pow_le_mono_r; lia). lia. }
    lia. }
  change (emax - prec) with 971.
  destruct (Z.eqb_spec q 0) as [Q0 | Q0].
  - rewrite Q0. cbn [Zdigits2]. rewrite shr_nat, !fexp_fexp64.
    replace (Z.to_nat (fexp64 (0 + E) - E)) with 0%nat by (unfold fexp64; lia).
    reflexivity.
  - destruct (Z.ltb_spec q (2 ^ 53)) as [Q1 | Q1].
    + rewrite shr_nat, !fexp_fexp64.
      assert (Zdigits2 q <= 53) by (apply Zdigits2_le; lia).
      replace (Z.to_nat (fexp64 (Zdigits2 q + E) - E)) with 0%nat by (unfold fexp64; lia).
      replace (E + Z.max 0 (fexp64 (Zdigits2 q + E) - E)) with E by (unfold fexp64; lia).
      cbn [Nat.iter nat_rect shr_m]. destruct q as [| qp | qp]; try lia.
      reflexivity.
    + assert (q = 2 ^ 53) by lia. rewrite H.
      change (Zdigits2 (2 ^ 53)) with 54. rewrite shr_nat, !fexp_fexp64.
      replace (fexp64 (54 + E) - E) with 1 by (unfold fexp64; lia).
      replace (E + Z.max 0 1) with (E + 1) by lia.
      reflexivity.
Qed.

Lemma bounded_facts (m : positive) (e : Z) :
  bounded prec emax m e = true ->
  -1074 <= e <= 971
  /\ 1 <= Zdigits2 (Zpos m) <= 53
  /\ (e = -1074 \/ Zdigits2 (Zpos m) = 53).
Proof.
  unfold bounded, canonical_mantissa. rewrite fexp_fexp64.
  change (emax - prec) with 971. intros H.
  apply andb_true_iff in H as [H1 H2].
  apply Z.eqb_eq in H1. apply Z.leb_le in H2.
  change (Z.pos (digits2_pos m)) with (Zdigits2 (Z.pos m)) in H1.
  assert (1 <= Zdigits2 (Z.pos m)).
  { rewrite Zdigits2_log2 by lia. pose proof (Z.log2_nonneg (Z.pos m)). lia. }
  unfold fexp64 in H1. lia.
Qed.

Lemma pow2_le (a b : Z) : 0 <= a <= b -> 2 ^ a <= 2 ^ b.
Proof. intros H. apply Z.pow_le_mono_r; lia. Qed.

Lemma pow2_pos (a : Z) : 0 <= a -> 0 < 2 ^ a.
Proof. intros H. apply Z.pow_pos_nonneg; lia. Qed.

Lemma val_finite_bounds (m : positive) (e : Z) :
  bounded prec emax m e = true ->
  0 < val (S754_finite false m e) < 2 ^ 2098
  /\ (e = -1074 \/ 2 ^ (52 + e + 1074) <= val (S754_finite false m e))
  /\ val (S754_finite false m e) < 2 ^ (53 + e + 1074).
Proof.
  intros H. apply bounded_facts in H as (He & Hd & Hn). cbn [val].
  pose proof (Zdigits2_bounds (Z.pos m) ltac:(lia)) as [L U].
  pose proof (pow2_pos (e + 1074) ltac:(lia)) as P.
  assert (U' : Z.pos m < 2 ^ 53).
  { pose proof (pow2_le (Zdigits2 (Z.pos m)) 53 ltac:(lia)). lia. }
  assert (B : Z.pos m * 2 ^ (e + 1074) < 2 ^ (53 + e + 1074)).
  { replace (53 + e + 1074) with (53 + (e + 1074)) by lia.
    rewrite (Z.pow_add_r 2 53 (e + 1074)) by lia. apply Z.mul_lt_mono_pos_r; lia. }
  split; [split; [lia |] | split].
  - pose proof (pow2_le (53 + e + 1074) 2098 ltac:(lia)). lia.
  - destruct Hn as [Hn | Hn]; [left; exact Hn | right].
    rewrite Hn in L. replace (52 + e + 1074) with (52 + (e + 1074)) by lia.
    rewrite (Z.pow_add_r 2 52 (e + 1074)) by lia. change (53 - 1) with 52 in L.
    apply Z.mul_le_mono_nonneg_r; lia.
  - exact B.
Qed.

Lemma leb_val (x y : float) :
  nonneg_float x -> nonneg_float y -> (SFleb x y = true <-> val x <= val y).
Proof.
  intros Hx Hy.
  assert (P98 : 0 < 2 ^ 2098) by (apply pow2_pos; lia).
  destruct x as [[|] | [|] | | [|] m1 e1]; try contradiction;
    destruct y as [[|] | [|] | | [|] m2 e2]; try contradiction;
    cbn [nonneg_float] in *; unfold SFleb; cbn [SFcompare];
    try (pose proof (val_finite_bounds _ _ Hx) as (Bx & Nx & Ux));
    try (pose proof (val_finite_bounds _ _ Hy) as (By & Ny & Uy)).
  all: try (cbn [val] in *; split; [intros _; lia | reflexivity]).
  all: try (cbn [val] in *; split; [discriminate | intros; exfalso; lia]).
  apply bounded_facts in Hx as (Hex & _). apply bounded_facts in Hy as (Hey & _).
  destruct (Z.compare_spec e1 e2) as [E | E | E].
  - subst e2. rewrite Pos.compare_cont_spec. cbn [Pos.switch_Eq val].
    pose proof (pow2_pos (e1 + 1074) ltac:(lia)).
    destruct (Pos.compare_spec m1 m2) as [C | C | C].
    + subst. intuition lia.
    + split; [intros _; apply Z.mul_le_mono_nonneg_r; lia | reflexivity].
    + split; [discriminate | intros L; exfalso].
      apply Z.mul_le_mono_pos_r in L; lia.
  - split; [intros _ | reflexivity].
    destruct Ny as [Ny | Ny]; [lia |].
    pose proof (pow2_le (53 + e1 + 1074) (52 + e2 + 1074) ltac:(lia)). lia.
  - split; [discriminate | intros L; exfalso].
    destruct Nx as [Nx | Nx]; [lia |].
    pose proof (pow2_le (53 + e2 + 1074) (52 + e1 + 1074) ltac:(lia)). lia.
Qed.

Lemma rexp_ge (W : Z) : -1074 <= rexp W.
Proof. unfold rexp, fexp64. lia. Qed.

Lemma Zdigits2_nonneg (W : Z) : 0 <= Zdigits2 W.
Proof. destruct W; simpl; lia. Qed.

Lemma Zdigits2_mono (a b : Z) : 0 <= a <= b -> Zdigits2 a <= Zdigits2 b.
Proof.
  intros [Ha Hab]. destruct (Z.eq_dec a 0) as [-> | N].
  - apply Zdigits2_nonneg.
  - rewrite !Zdigits2_log2 by lia.
    pose proof (Z.log2_le_mono a b Hab). lia.
Qed.

Lemma rexp_mono (a b : Z) : 0 <= a <= b -> rexp a <= rexp b.
Proof.
  intros H. pose proof (Zdigits2_mono a b H). unfold rexp, fexp64. lia.
Qed.

Lemma rmant_le (W : Z) : 0 <= W -> 0 <= rmant W <= 2 ^ 53.
Proof.
  intros HW. unfold rmant.
  pose proof (rexp_ge W) as HE.
  pose proof (pow2_pos (rexp W + 2148) ltac:(lia)) as P.
  pose proof (dhe_bounds W _ P) as [L U].
  assert (0 <= W / 2 ^ (rexp W + 2148)) by (apply Z.div_pos; lia).
  split; [lia |].
  enough (W / 2 ^ (rexp W + 2148) < 2 ^ 53) by lia.
  apply Z.div_lt_upper_bound; [exact P |].
  rewrite <- Z.pow_add_r by lia.
  destruct (Z.eq_dec W 0) as [-> | N]; [apply pow2_pos; lia |].
  pose proof (Zdigits2_bounds W ltac:(lia)) as [_ Hlt].
  pose proof (Zdigits2_nonneg W).
  assert (2 ^ Zdigits2 W <= 2 ^ (rexp W + 2148 + 53)).
  { apply pow2_le. unfold rexp, fexp64. lia. }
  lia.
Qed.

Lemma rmant_ge (W : Z) : 0 <= W -> -1074 < rexp W -> 2 ^ 52 <= rmant W.
Proof.
  intros HW HE. unfold rmant.
  pose proof (pow2_pos (rexp W + 2148) ltac:(lia)) as P.
  pose proof (dhe_bounds W _ P) as [L U].
  enough (2 ^ 52 <= W / 2 ^ (rexp W + 2148)) by lia.
  apply Z.div_le_lower_bound; [exact P |].
  rewrite <- Z.pow_add_r by lia.
  assert (E : rexp W = Zdigits2 W - 2148 - 53) by (unfold rexp, fexp64 in *; lia).
  assert (N : 0 < W).
  { destruct (Z.eq_dec W 0) as [-> | N]; [| lia]. unfold rexp in E. simpl in E, HE.
    unfold rexp, fexp64 in HE. simpl in HE. lia. }
  pose proof (Zdigits2_bounds W N) as [Hge _].
  replace (rexp W + 2148 + 52) with (Zdigits2 W - 1) by lia. exact Hge.
Qed.

Lemma rv_mono (a b : Z) : 0 <= a <= b -> rv a <= rv b.
Proof.
  intros H. unfold rv.
  pose proof (rexp_mono a b H) as HE.
  pose proof (rexp_ge a) as Ha. pose proof (rexp_ge b) as Hb.
  pose proof (pow2_pos (rexp a + 1074) ltac:(lia)) as Pa.
  pose proof (pow2_pos (rexp b + 1074) ltac:(lia)) as Pb.
  destruct (Z.eq_dec (rexp a) (rexp b)) as [E | E].
  - unfold rmant. rewrite E. apply Z.mul_le_mono_nonneg_r; [lia |].
    apply dhe_mono; [apply pow2_pos; lia | lia].
  - pose proof (rmant_le a ltac:(lia)) as [_ Ua].
    pose proof (rmant_ge b ltac:(lia) ltac:(lia)) as Lb.
    apply Z.le_trans with (2 ^ 53 * 2 ^ (rexp a + 1074)).
    + apply Z.mul_le_mono_nonneg_r; lia.
    + apply Z.le_trans with (2 ^ 52 * 2 ^ (rexp b + 1074)).
      * rewrite <- !Z.pow_add_r by lia. apply pow2_le. lia.
      * apply Z.mul_le_mono_nonneg_r; lia.
Qed.

Lemma round_int_spec (W : Z) :
  0 <= W ->
  nonneg_float (round_int W) /\ val (round_int W) = Z.min (rv W) (2 ^ 2098).
Proof.
  intros HW. unfold round_int, rv. fold (rexp W). fold (rmant W).
  pose proof (rexp_ge W) as HE. pose proof (rmant_le W HW) as [Q0 Q1].
  pose proof (pow2_pos (rexp W + 1074) ltac:(lia)) as P.
  set (E := rexp W) in *. set (q := rmant W) in *.
  destruct (Z.eqb_spec q 0) as [Z0 | NZ].
  - rewrite Z0. cbn. split; [exact I |].
    assert (0 < 2 ^ 2098) by (apply pow2_pos; lia). lia.
  - assert (Hn : -1074 < E -> 2 ^ 52 <= q) by (intros; apply rmant_ge; assumption).
    destruct (Z.ltb_spec q (2 ^ 53)) as [Lq | Gq].
    + destruct (Z.leb_spec E 971) as [LE | GE].
      * assert (B : bounded prec emax (Z.to_pos q) E = true).
        { unfold bounded, canonical_mantissa. rewrite fexp_fexp64.
          change (emax - prec) with 971.
          change (Z.pos (digits2_pos (Z.to_pos q))) with (Zdigits2 (Z.pos (Z.to_pos q))).
          rewrite Z2Pos.id by lia.
          apply andb_true_iff; split; [apply Z.eqb_eq | apply Z.leb_le; lia].
          assert (Zdigits2 q <= 53) by (apply Zdigits2_le; lia).
          destruct (Z.eq_dec E (-1074)) as [EE | EE]; [unfold fexp64; lia |].
          rewrite (Zdigits2_unique q 53) by (change (53 - 1) with 52; lia).
          unfold fexp64; lia. }
        split; [exact B |].
        pose proof (val_finite_bounds _ _ B) as (Bv & _).
        cbn [val] in *. rewrite Z2Pos.id in * by lia. lia.
      * split; [exact I |]. cbn [val].
        assert (2 ^ 2098 <= q * 2 ^ (E + 1074)); [| lia].
        apply Z.le_trans with (2 ^ 52 * 2 ^ (E + 1074)).
        -- rewrite <- Z.pow_add_r by lia. apply pow2_le. lia.
        -- apply Z.mul_le_mono_nonneg_r; [lia | apply Hn; lia].
    + assert (Eq : q = 2 ^ 53) by lia.
      destruct (Z.leb_spec (E + 1) 971) as [LE | GE].
      * assert (B : bounded prec emax (Z.to_pos (2 ^ 52)) (E + 1) = true).
        { unfold bounded, canonical_mantissa. rewrite fexp_fexp64.
          change (emax - prec) with 971.
          change (Z.pos (digits2_pos (Z.to_pos (2 ^ 52)))) with 53.
          apply andb_true_iff; split; [apply Z.eqb_eq | apply Z.leb_le; lia].
          unfold fexp64; lia. }
        split; [exact B |].
        pose proof (val_finite_bounds _ _ B) as (Bv & _).
        cbn [val] in *. rewrite Eq.
        change (Z.pos (Z.to_pos (2 ^ 52))) with (2 ^ 52) in *.
        replace (E + 1 + 1074) with (1 + (E + 1074)) in * by lia.
        rewrite (Z.pow_add_r 2 1 (E + 1074)) in * by lia.
        change (2 ^ 53) with (2 ^ 52 * 2 ^ 1). lia.
      * split; [exact I |]. cbn [val]. rewrite Eq.
        assert (2 ^ 2098 <= 2 ^ 53 * 2 ^ (E + 1074)); [| lia].
        rewrite <- Z.pow_add_r by lia. apply pow2_le. lia.
Qed.

Lemma round_int_mono (a b : Z) :
  0 <= a <= b ->
  val (round_int a) <= val (round_int b)
  /\ SFleb (round_int a) (round_int b) = true.
Proof.
  intros H.
  destruct (round_int_spec a ltac:(lia)) as [Va Ea].
  destruct (round_int_spec b ltac:(lia)) as [Vb Eb].
  pose proof (rv_mono a b H).
  assert (val (round_int a) <= val (round_int b)) by lia.
  split; [assumption | apply leb_val; assumption].
Qed.


Lemma iter_xO (m d : positive) : Zpos (Pos.iter xO m d) = Zpos m * 2 ^ Zpos d.
Proof.
  rewrite <- Z.shiftl_mul_pow2 by lia. unfold Z.shiftl.
  apply (Pos.iter_swap_gen _ _ Zpos xO (Z.mul 2)). reflexivity.
Qed.

Lemma round_int_0 : round_int 0 = S754_zero false.
Proof. reflexivity. Qed.

Lemma of_int_round (n : Z) : 0 <= n -> of_int n = round_int (n * 2 ^ 2148).
Proof.
  intros Hn. destruct n as [| p | p]; try lia; [reflexivity |].
  unfold of_int, binary_normalize, binary_round, shl_align.
  rewrite fexp_fexp64.
  change (Z.pos (digits2_pos p)) with (Zdigits2 (Z.pos p)).
  pose proof (Zdigits2_bounds (Z.pos p) ltac:(lia)) as [L U].
  assert (D : 1 <= Zdigits2 (Z.pos p)).
  { rewrite Zdigits2_log2 by lia. pose proof (Z.log2_nonneg (Z.pos p)). lia. }
  destruct (fexp64 (Zdigits2 (Z.pos p) + 0) - 0) as [| k | k] eqn:E.
  - rewrite round_aux_int; [f_equal | lia | unfold fexp64 in *; lia].
  - rewrite round_aux_int; [f_equal | lia | unfold fexp64 in *; lia].
  - rewrite round_aux_int.
    + f_equal. rewrite iter_xO. rewrite <- Z.mul_assoc, <- Z.pow_add_r by (unfold fexp64 in *; lia).
      f_equal. f_equal. lia.
    + unfold fexp64 in *; lia.
    + rewrite iter_xO. rewrite Zdigits2_shift by lia. unfold fexp64 in *. lia.
Qed.

Lemma finite_nonneg_nonneg x : finite_nonneg x -> nonneg_float x.
Proof. destruct x as [[|] | [|] | | [|] m e]; simpl; auto. Qed.

Lemma Zdigits2_ge (m k : Z) : 0 <= k -> 2 ^ k <= m -> k + 1 <= Zdigits2 m.
Proof.
  intros Hk H. assert (0 < m) by (pose proof (pow2_pos k Hk); lia).
  pose proof (Zdigits2_bounds m ltac:(lia)) as [_ U].
  destruct (Z.le_gt_cases (k + 1) (Zdigits2 m)) as [?|G]; [assumption | exfalso].
  pose proof (Zdigits2_nonneg m).
  pose proof (pow2_le (Zdigits2 m) k ltac:(lia)). lia.
Qed.

Lemma mul_round (x c : float) :
  finite_nonneg x -> finite_nonneg c -> mul x c = round_int (val x * val c).
Proof.
  intros Hx Hc.
  destruct x as [[|] | [|] | | [|] m1 e1]; try contradiction;
    destruct c as [[|] | [|] | | [|] m2 e2]; try contradiction;
    cbn [finite_nonneg] in *; try reflexivity.
  - cbn [val]. rewrite Z.mul_0_r. reflexivity.
  - pose proof (bounded_facts _ _ Hx) as (He1 & Hd1 & Hn1).
    pose proof (bounded_facts _ _ Hc) as (He2 & Hd2 & Hn2).
    unfold mul, SFmul. cbn [xorb val].
    pose proof (Zdigits2_bounds (Z.pos m1) ltac:(lia)) as [L1 _].
    pose proof (Zdigits2_bounds (Z.pos m2) ltac:(lia)) as [L2 _].
    assert (D : Zdigits2 (Z.pos m1) + Zdigits2 (Z.pos m2) - 1 <= Zdigits2 (Z.pos (m1 * m2))).
    { replace (Zdigits2 (Z.pos m1) + Zdigits2 (Z.pos m2) - 1)
        with ((Zdigits2 (Z.pos m1) - 1) + (Zdigits2 (Z.pos m2) - 1) + 1) by lia.
      apply Zdigits2_ge; [lia |]. rewrite Z.pow_add_r by lia.
      rewrite Pos2Z.inj_mul.
      apply Z.mul_le_mono_nonneg; try lia; apply Z.lt_le_incl, pow2_pos; lia. }
    rewrite round_aux_int; [| lia | unfold fexp64; lia].
    f_equal. rewrite Pos2Z.inj_mul.
    replace (e1 + e2 + 2148) with ((e1 + 1074) + (e2 + 1074)) by lia.
    rewrite Z.pow_add_r by lia. ring.
Qed.

Lemma rv_le_pow (W k : Z) : 0 <= W -> -1074 <= k -> W <= 2 ^ (k + 2148 + 52) ->
  rv W <= 2 ^ (k + 1074 + 52).
Proof.
  intros HW Hk H.
  assert (E : 2 ^ (k + 1074 + 52) = rv (2 ^ (k + 2148 + 52))).
  { unfold rv, rmant, rexp.
    rewrite (Zdigits2_unique (2 ^ (k + 2148 + 52)) (k + 2148 + 53)).
    - replace (fexp64 (k + 2148 + 53 - 2148)) with k by (unfold fexp64; lia).
      replace (2 ^ (k + 2148 + 52)) with (2 ^ 52 * 2 ^ (k + 2148))
        by (rewrite <- Z.pow_add_r by lia; f_equal; lia).
      replace (2 ^ (k + 2148)) with (1 * 2 ^ (k + 2148)) at 2 by lia.
      rewrite dhe_scale by (try apply pow2_pos; lia).
      change (div_half_even (2 ^ 52) 1) with (2 ^ 52).
      rewrite <- Z.pow_add_r by lia. f_equal. lia.
    - split; [apply pow2_le; lia | apply Z.pow_lt_mono_r; lia].
    - apply pow2_pos; lia. }
  rewrite E. apply rv_mono. lia.
Qed.


Lemma round_int_finite (W k : Z) :
  0 <= W -> -1074 <= k <= 970 -> W <= 2 ^ (k + 2148 + 52) ->
  finite_nonneg (round_int W) /\ val (round_int W) <= 2 ^ (k + 1074 + 52).
Proof.
  intros HW Hk H.
  destruct (round_int_spec W HW) as [V E].
  pose proof (rv_le_pow W k HW ltac:(lia) H) as R.
  assert (P : 2 ^ (k + 1074 + 52) < 2 ^ 2098) by (apply Z.pow_lt_mono_r; lia).
  assert (Hv : val (round_int W) <= 2 ^ (k + 1074 + 52)) by lia.
  split; [| exact Hv].
  destruct (round_int W) as [[|] | [|] | | [|] m e]; cbn in V |- *; try contradiction; auto.
  cbn [val] in Hv. lia.
Qed.

Lemma rne_bounds (q : Z) (l : location) :
  q <= round_nearest_even q l <= q + 1.
Proof.
  destruct l as [| [| |]]; cbn [round_nearest_even]; try lia.
  destruct (Z.even q); lia.
Qed.

Lemma shr_record_of_loc_m (m : Z) (l : location) : shr_m (shr_record_of_loc m l) = m.
Proof. destruct l as [| [| |]]; reflexivity. Qed.

Lemma div_pow2_lt (m d n : Z) : 0 <= m < 2 ^ d -> 0 <= d -> 0 <= n ->
  m / 2 ^ n + 1 <= 2 ^ Z.max (d - n) 0.
Proof.
  intros Hm Hd Hn. pose proof (pow2_pos n Hn) as P.
  destruct (Z.le_gt_cases n d) as [L | G].
  - rewrite Z.max_l by lia.
    enough (m / 2 ^ n < 2 ^ (d - n)) by lia.
    apply Z.div_lt_upper_bound; [exact P |].
    rewrite <- Z.pow_add_r by lia. replace (n + (d - n)) with d by lia. lia.
  - rewrite Z.max_r by lia. change (2 ^ 0) with 1.
    enough (m / 2 ^ n = 0) by lia. apply Z.div_small.
    pose proof (pow2_le d n ltac:(lia)). lia.
Qed.

Lemma Zdigits2_le_pow (m k : Z) : 0 <= m -> 0 <= k -> m <= 2 ^ k -> Zdigits2 m <= k + 1.
Proof.
  intros Hm Hk H. apply Zdigits2_le; try lia.
  rewrite Z.pow_add_r by lia. change (2 ^ 1) with 2. pose proof (pow2_pos k Hk). lia.
Qed.

(** A rounding whose input is below [2^1022] stays finite, whatever the
    location it starts from. *)
(** A rounding whose input is below [2^1022] stays finite, whatever the
    location it starts from. *)
Lemma round_aux_finite (s : bool) (m e : Z) (l : location) :
  0 <= m -> e <= 971 -> Zdigits2 m + e <= 1022 ->
  finite_signed s (binary_round_aux prec emax s m e l).
Proof.
  intros Hm He Hd.
  unfold binary_round_aux, shr_fexp. rewrite fexp_fexp64, shr_nat.
  set (d := Zdigits2 m) in *.
  set (n1 := fexp64 (d + e) - e).
  set (R1 := Nat.iter (Z.to_nat n1) shr_1 (shr_record_of_loc m l)).
  assert (Hq1 : shr_m R1 = m / 2 ^ Z.max 0 n1).
  { unfold R1. rewrite shr_iter_m by (rewrite shr_record_of_loc_m; lia).
    rewrite shr_record_of_loc_m. f_equal. f_equal. lia. }
  set (m1 := round_nearest_even (shr_m R1) (loc_of_shr_record R1)).
  pose proof (rne_bounds (shr_m R1) (loc_of_shr_record R1)) as Hm1. fold m1 in Hm1.
  set (e1 := e + Z.max 0 n1) in *.
  assert (D0 : 0 <= d) by apply Zdigits2_nonneg.
  assert (Hlt : 0 <= m < 2 ^ d).
  { split; [lia |]. destruct (Z.eq_dec m 0) as [-> | N]; [apply pow2_pos; lia |].
    apply Zdigits2_bounds; lia. }
  pose proof (div_pow2_lt m d (Z.max 0 n1) Hlt D0 ltac:(lia)) as B.
  rewrite <- Hq1 in B.
  assert (Q0 : 0 <= shr_m R1) by (rewrite Hq1; apply Z.div_pos; [lia | apply pow2_pos; lia]).
  assert (Dm1 : Zdigits2 m1 <= Z.max (d - Z.max 0 n1) 0 + 1)
    by (apply Zdigits2_le_pow; lia).
  assert (E1 : e1 <= 971) by (unfold e1, n1, fexp64; lia).
  rewrite fexp_fexp64, shr_nat.
  set (n2 := fexp64 (Zdigits2 m1 + e1) - e1).
  set (R2 := Nat.iter (Z.to_nat n2) shr_1 (shr_record_of_loc m1 loc_Exact)).
  assert (Hq2 : shr_m R2 = m1 / 2 ^ Z.max 0 n2).
  { unfold R2. rewrite shr_iter_m by (rewrite shr_record_of_loc_m; lia).
    rewrite shr_record_of_loc_m. f_equal. f_equal. lia. }
  assert (Q2 : 0 <= shr_m R2) by (rewrite Hq2; apply Z.div_pos; [lia | apply pow2_pos; lia]).
  assert (E2 : e1 + Z.max 0 n2 <= 971) by (unfold n2, e1, n1, fexp64 in *; lia).
  destruct (shr_m R2) as [| p | p]; try lia; [reflexivity |].
  change (emax - prec) with 971.
  destruct (Z.leb_spec (e1 + Z.max 0 n2) 971); [reflexivity | lia].
Qed.

Lemma of_int_4 : of_int 4 = four.
Proof. reflexivity. Qed.

Lemma div4_finite (x : float) :
  finite_nonneg x -> finite_signed false (div x four).
Proof.
  intros Hx.
  destruct x as [[|] | [|] | | [|] m e]; try contradiction; [reflexivity |].
  cbn [finite_nonneg] in Hx. apply bounded_facts in Hx as (He & Hd & _).
  unfold div, four, SFdiv, SFdiv_core_binary.
  rewrite fexp_fexp64.
  change (Zdigits2 4503599627370496) with 53.
  set (d := Zdigits2 (Z.pos m)) in *.
  set (e' := Z.min (fexp64 (d + e - (53 + -50))) (e - -50)).
  set (s := e - -50 - e').
  assert (Hs : 0 <= s) by (unfold s, e'; lia).
  set (m' := match s with Z.pos _ => Z.shiftl (Z.pos m) s | 0 => Z.pos m | Z.neg _ => 0 end).
  assert (Hm' : m' = Z.pos m * 2 ^ s).
  { unfold m'. destruct s as [| k | k]; try lia.
    apply Z.shiftl_mul_pow2. lia. }
  rewrite (surjective_pairing (Z.div_eucl m' 4503599627370496)).
  change (fst (Z.div_eucl m' 4503599627370496)) with (m' / 2 ^ 52).
  cbn [xorb].
  apply round_aux_finite.
  - apply Z.div_pos; [| apply pow2_pos; lia]. rewrite Hm'.
    pose proof (pow2_pos s Hs). lia.
  - unfold e', fexp64. lia.
  - assert (Hlt : 0 <= m' < 2 ^ (d + s)).
    { rewrite Hm'. pose proof (pow2_pos s Hs).
      pose proof (Zdigits2_bounds (Z.pos m) ltac:(lia)) as [_ U]. fold d in U.
      rewrite Z.pow_add_r by lia. split; [lia |].
      apply Z.mul_lt_mono_pos_r; lia. }
    pose proof (div_pow2_lt m' (d + s) 52 Hlt ltac:(lia) ltac:(lia)) as B.
    assert (Q : 0 <= m' / 2 ^ 52) by (apply Z.div_pos; [lia | apply pow2_pos; lia]).
    assert (Zdigits2 (m' / 2 ^ 52) <= Z.max (d + s - 52) 0)
      by (apply Zdigits2_le; lia).
    unfold s, e', fexp64 in *. lia.
Qed.

(** On a finite float that is not negative [int(x)] is the floor. *)
Lemma to_int_floor (x : float) :
  finite_signed false x -> to_int x = Ok (float_floor x) /\ 0 <= float_floor x.
Proof.
  destruct x as [s | s | | s m e]; cbn [to_int float_floor finite_signed];
    try contradiction.
  - intros _. split; [reflexivity | lia].
  - intros ->. split; [reflexivity |].
    destruct e as [| k | k].
    + lia.
    + pose proof (pow2_pos (Z.pos k) ltac:(lia)). lia.
    + apply Z.div_pos; [lia | apply pow2_pos; lia].
Qed.

Lemma val_eight : val (of_int 8) = 2 ^ 1077.
Proof. reflexivity. Qed.

Lemma val_nonneg (x : float) : 0 <= val x.
Proof.
  destruct x as [s | [|] | | [|] m e]; cbn [val]; lia.
Qed.

(** The float of a length below [2^63] is finite. *)
Lemma of_int_finite (n : Z) :
  0 <= n < 2 ^ 63 -> finite_nonneg (of_int n) /\ val (of_int n) <= 2 ^ 1137.
Proof.
  intros H. rewrite of_int_round by lia.
  apply (round_int_finite (n * 2 ^ 2148) 11); [| lia |].
  - pose proof (pow2_pos 2148 ltac:(lia)). lia.
  - change (2 ^ (11 + 2148 + 52)) with (2 ^ 63 * 2 ^ 2148).
    apply Z.mul_le_mono_nonneg_r; [apply Z.lt_le_incl, pow2_pos |]; lia.
Qed.

Lemma of_int_mono (a b : Z) : 0 <= a <= b -> val (of_int a) <= val (of_int b).
Proof.
  intros H. rewrite !of_int_round by lia. apply round_int_mono.
  pose proof (pow2_pos 2148 ltac:(lia)). split; [lia |].
  apply Z.mul_le_mono_nonneg_r; lia.
Qed.

(** A length times a float between 0 and 8 is finite. *)
Lemma mul_length_finite (n : Z) (c : float) :
  0 <= n < 2 ^ 63 -> finite_nonneg c -> val c <= 2 ^ 1077 ->
  finite_nonneg (mul (of_int n) c).
Proof.
  intros Hn Hc Hv. destruct (of_int_finite n Hn) as [Fx Vx].
  rewrite mul_round by assumption.
  pose proof (val_nonneg (of_int n)). pose proof (val_nonneg c).
  apply (round_int_finite (val (of_int n) * val c) 14); [| lia |].
  - apply Z.mul_nonneg_nonneg; assumption.
  - change (2 ^ (14 + 2148 + 52)) with (2 ^ 1137 * 2 ^ 1077).
    apply Z.mul_le_mono_nonneg; assumption.
Qed.

(** For a fixed non-negative factor the product grows with the length. *)
Lemma mul_length_mono (a b : Z) (c : float) :
  0 <= a <= b -> b < 2 ^ 63 -> finite_nonneg c ->
  leb (mul (of_int a) c) (mul (of_int b) c) = true.
Proof.
  intros Hab Hb Hc.
  destruct (of_int_finite a ltac:(lia)) as [Fa _].
  destruct (of_int_finite b ltac:(lia)) as [Fb _].
  rewrite !mul_round by assumption.
  pose proof (val_nonneg (of_int a)). pose proof (val_nonneg c).
  apply round_int_mono. split.
  - apply Z.mul_nonneg_nonneg; assumption.
  - apply Z.mul_le_mono_nonneg_r; [assumption | apply of_int_mono; assumption].
Qed.

Lemma is_nonneg_finite_iff (x : float) :
  is_nonneg_finite x = true <-> finite_nonneg x.
Proof.
  destruct x as [[|] | [|] | | [|] m e]; simpl; intuition discriminate.
Qed.

End FloatFacts.

(** * Strings: occurrences and prefixes *)

Section StringFacts.

Local Open Scope nat_scope.

Lemma prefix_app (a t : string) : prefix a (a ++ t) = true.
Proof.
  induction a as [| c a IH]; simpl.
  - destruct t; reflexivity.
  - destruct (ascii_dec c c); [exact IH | congruence].
Qed.

Lemma prefix_split (a s : string) :
  prefix a s = true -> exists t, s = a ++ t.
Proof.
  revert s; induction a as [| c a IH]; intros s H.
  - exists s; reflexivity.
  - destruct s as [| d s]; simpl in H; [discriminate |].
    destruct (ascii_dec c d) as [-> | ]; [| discriminate].
    destruct (IH s H) as [t ->]. exists t; reflexivity.
Qed.

Lemma prefix_iff (a s : string) :
  prefix a s = true <-> exists t, s = a ++ t.
Proof.
  split; [apply prefix_split | intros [t ->]; apply prefix_app].
Qed.

Lemma append_assoc (a b c : string) : (a ++ b) ++ c = a ++ (b ++ c).
Proof. induction a; simpl; congruence. Qed.

Lemma append_nil_r (a : string) : a ++ "" = a.
Proof. induction a; simpl; congruence. Qed.

Lemma length_append (a b : string) :
  String.length (a ++ b) = String.length a + String.length b.
Proof. induction a; simpl; congruence. Qed.

Lemma substring_0_app (g t : string) :
  substring 0 (String.length g) (g ++ t) = g.
Proof.
  induction g as [| c g IH]; simpl.
  - destruct t; reflexivity.
  - now rewrite IH.
Qed.

Lemma substring_0_prefix (n : nat) (s : string) :
  exists t, s = substring 0 n s ++ t.
Proof.
  revert s; induction n as [| n IH]; intros s.
  - exists s. destruct s; reflexivity.
  - destruct s as [| c s]; simpl.
    + exists ""; reflexivity.
    + destruct (IH s) as [t Ht]. exists t. now rewrite <- Ht.
Qed.

(** A search succeeds exactly when the match succeeds on some suffix. *)
Lemma re_search_iff (here : string -> bool) (s : string) :
  re_search here s = true <-> exists pre suf, s = pre ++ suf /\ here suf = true.
Proof.
  split.
  - induction s as [| c s IH]; simpl; intros H.
    + rewrite orb_false_r in H. exists "", ""; auto.
    + apply orb_true_iff in H as [H | H].
      * exists "", (String c s); auto.
      * destruct (IH H) as (pre & suf & -> & Hs).
        exists (String c pre), suf; auto.
  - intros (pre & suf & -> & H).
    induction pre as [| c pre IH]; simpl.
    + destruct suf; simpl; rewrite H; reflexivity.
    + rewrite IH. apply orb_true_r.
Qed.

Lemma contains_search (needle hay : string) :
  PyStr.contains needle hay = re_search (prefix needle) hay.
Proof.
  induction hay as [| c hay IH].
  - reflexivity.
  - change (PyStr.contains needle (String c hay))
      with (prefix needle (String c hay) || PyStr.contains needle hay).
    rewrite IH. reflexivity.
Qed.

Lemma contains_iff (needle hay : string) :
  PyStr.contains needle hay = true <-> exists pre post, hay = pre ++ needle ++ post.
Proof.
  rewrite contains_search, re_search_iff. split.
  - intros (pre & suf & -> & H). apply prefix_split in H as [t ->].
    exists pre, t; reflexivity.
  - intros (pre & post & ->). exists pre, (needle ++ post).
    split; [reflexivity | apply prefix_app].
Qed.

(** The pattern [(.{n})\1{k,}] matches at the start of [s] exactly when [s]
    begins with [k + 1] copies of some [n] characters, none a newline. *)
Lemma group_repeats_here_iff (n k : nat) (s : string) :
  group_repeats_here n k s = true
  <-> exists g post, String.length g = n /\ PyStr.all re_dot g = true
                     /\ s = PyStr.times g (S k) ++ post.
Proof.
  unfold group_repeats_here, PyStr.slice. split.
  - intros H. apply andb_true_iff in H as [H Hp].
    apply andb_true_iff in H as [Hl Hd].
    apply Nat.eqb_eq in Hl. apply prefix_split in Hp as [post Hp].
    exists (substring 0 n s), post; auto.
  - intros (g & post & Hl & Hd & ->). subst n.
    simpl PyStr.times. rewrite append_assoc, substring_0_app.
    rewrite Nat.eqb_refl, Hd. simpl.
    rewrite <- append_assoc. apply prefix_app.
Qed.

End StringFacts.

(** * The sequence detector *)

Section Sequences.

Lemma sequence_step_hits (lower seq : string) (count : Z) (i : nat) :
  sequence_step lower seq count i = count + window_hits lower seq i.
Proof.
  unfold sequence_step, window_hits.
  destruct (PyStr.contains (PyStr.slice i 3 seq) lower);
    destruct (PyStr.contains (PyStr.rev (PyStr.slice i 3 seq)) lower);
    simpl; lia.
Qed.

Lemma window_hits_range (lower seq : string) (i : nat) :
  0 <= window_hits lower seq i <= 2.
Proof.
  unfold window_hits.
  destruct (PyStr.contains (PyStr.slice i 3 seq) lower);
    destruct (PyStr.contains (PyStr.rev (PyStr.slice i 3 seq)) lower);
    simpl; lia.
Qed.

Lemma fold_sequence_step (lower seq : string) (l : list nat) (count : Z) :
  fold_left (sequence_step lower seq) l count
  = count + sumZ (map (window_hits lower seq) l).
Proof.
  revert count; induction l as [| i l IH]; intros count; simpl.
  - lia.
  - rewrite IH, sequence_step_hits. lia.
Qed.

Lemma fold_alphabets (lower : string) (seqs : list string) (count : Z) :
  fold_left
    (fun count seq =>
       fold_left (sequence_step lower seq) (PyStr.range (PyStr.len seq - 2)) count)
    seqs count
  = count + sumZ (map (alphabet_hits lower) seqs).
Proof.
  revert count; induction seqs as [| seq seqs IH]; intros count; simpl.
  - lia.
  - rewrite IH, fold_sequence_step. unfold alphabet_hits. lia.
Qed.

Lemma find_sequences_sum (p : string) :
  _find_sequences p = sumZ (map (alphabet_hits (PyStr.lower p)) SEQUENCES).
Proof. unfold _find_sequences. rewrite fold_alphabets. lia. Qed.

(** No character of a lower-cased string is an upper-case letter. *)
Lemma lower_char_not_upper (x : ascii) : PyStr.isupper (PyStr.lower_char x) = false.
Proof.
  destruct x as [b0 b1 b2 b3 b4 b5 b6 b7].
  destruct b0, b1, b2, b3, b4, b5, b6, b7; reflexivity.
Qed.

Lemma map_split (f : ascii -> ascii) (p pre : string) (c : ascii) (post : string) :
  PyStr.map f p = pre ++ String c post -> exists x, f x = c.
Proof.
  revert p; induction pre as [| d pre IH]; intros [| x p] H; simpl in H;
    try discriminate.
  - injection H as H _. exists x; exact H.
  - injection H as _ H. exact (IH p H).
Qed.

Lemma upper_chunk_absent (c : ascii) (t p : string) :
  PyStr.isupper c = true -> PyStr.contains (String c t) (PyStr.lower p) = false.
Proof.
  intros Hc. destruct (PyStr.contains (String c t) (PyStr.lower p)) eqn:E; auto.
  apply contains_iff in E as (pre & post & E). simpl in E.
  apply map_split in E as [x Hx].
  rewrite <- Hx, lower_char_not_upper in Hc. discriminate.
Qed.

Lemma upper_window_silent (p : string) (i : nat) :
  (i < 24)%nat -> window_hits (PyStr.lower p) UPPER_ALPHABET i = 0.
Proof.
  intros Hi. unfold window_hits.
  do 24 (destruct i as [| i];
         [ cbn [PyStr.slice substring UPPER_ALPHABET PyStr.rev String.append];
           rewrite !upper_chunk_absent by reflexivity; reflexivity | ]).
  lia.
Qed.

Lemma upper_alphabet_silent (p : string) :
  alphabet_hits (PyStr.lower p) UPPER_ALPHABET = 0.
Proof.
  unfold alphabet_hits.
  assert (H : forall l, (forall i, In i l -> (i < 24)%nat) ->
                        sumZ (map (window_hits (PyStr.lower p) UPPER_ALPHABET) l) = 0).
  { induction l as [| i l IH]; intros Hl; simpl; [reflexivity |].
    rewrite upper_window_silent by (apply Hl; left; reflexivity).
    rewrite IH; [reflexivity | intros j Hj; apply Hl; right; exact Hj]. }
  apply H. intros i Hi. unfold PyStr.range in Hi. apply in_seq in Hi.
  change (Z.to_nat (PyStr.len UPPER_ALPHABET - 2)) with 24%nat in Hi. lia.
Qed.

Lemma map_substring (f : ascii -> ascii) (i n : nat) (s : string) :
  PyStr.map f (substring i n s) = substring i n (PyStr.map f s).
Proof.
  revert i n; induction s as [| c s IH]; intros [| i] [| n]; simpl;
    try reflexivity; rewrite ?IH; reflexivity.
Qed.

Lemma map_append (f : ascii -> ascii) (a b : string) :
  PyStr.map f (a ++ b) = PyStr.map f a ++ PyStr.map f b.
Proof. induction a; simpl; congruence. Qed.

Lemma map_rev (f : ascii -> ascii) (s : string) :
  PyStr.map f (PyStr.rev s) = PyStr.rev (PyStr.map f s).
Proof.
  induction s as [| c s IH]; simpl; [reflexivity |].
  rewrite map_append, IH. reflexivity.
Qed.

Lemma lowercase_window (p seq : string) (i : nat) :
  PyStr.lower seq = seq ->
  window_hits (PyStr.lower p) seq i
  = Z.b2z (occurs_ignoring_case (PyStr.slice i 3 seq) p)
    + Z.b2z (occurs_ignoring_case (PyStr.rev (PyStr.slice i 3 seq)) p).
Proof.
  intros Hseq. unfold window_hits, occurs_ignoring_case, PyStr.lower, PyStr.slice.
  rewrite map_rev, map_substring. unfold PyStr.lower in Hseq. rewrite Hseq.
  reflexivity.
Qed.

End Sequences.

(** C5, as the code has it: the password is lower-cased once and every chunk
    is compared as it is written in its alphabet.  The detector therefore
    ignores the letter case of the password, the windows of the three
    lower-case alphabets count when the chunk or its reverse occurs ignoring
    case, and no window of the upper-case alphabet ever counts: the total is
    the sum over the other three alphabets. *)
Theorem C5_sequences_ignore_password_case (p : string) :
  (forall q, PyStr.lower q = PyStr.lower p -> _find_sequences q = _find_sequences p)
  /\ (forall seq i count,
         In seq [LOWER_ALPHABET; DIGITS; KEYBOARD_ROW] ->
         sequence_step (PyStr.lower p) seq count i
         = count
           + Z.b2z (occurs_ignoring_case (PyStr.slice i 3 seq) p)
           + Z.b2z (occurs_ignoring_case (PyStr.rev (PyStr.slice i 3 seq)) p))
  /\ (forall i count,
         In i (PyStr.range (PyStr.len UPPER_ALPHABET - 2)) ->
         sequence_step (PyStr.lower p) UPPER_ALPHABET count i = count)
  /\ _find_sequences p
     = alphabet_hits (PyStr.lower p) LOWER_ALPHABET
       + alphabet_hits (PyStr.lower p) DIGITS
       + alphabet_hits (PyStr.lower p) KEYBOARD_ROW.
Proof.
  repeat split.
  - intros q Hq. rewrite !find_sequences_sum, Hq. reflexivity.
  - intros seq i count Hseq. rewrite sequence_step_hits, lowercase_window; [lia |].
    simpl in Hseq. destruct Hseq as [<- | [<- | [<- | []]]]; reflexivity.
  - intros i count Hi. rewrite sequence_step_hits, upper_window_silent; [lia |].
    unfold PyStr.range in Hi. apply in_seq in Hi.
    change (Z.to_nat (PyStr.len UPPER_ALPHABET - 2)) with 24%nat in Hi. lia.
  - rewrite find_sequences_sum.
    change SEQUENCES with [LOWER_ALPHABET; UPPER_ALPHABET; DIGITS; KEYBOARD_ROW].
    cbn [map sumZ fold_right]. rewrite upper_alphabet_silent. lia.
Qed.

(** C5 as stated fails: "abc" occurs in the password "abc" ignoring case,
    yet the window "ABC" of the upper-case alphabet adds nothing, and the
    password counts one match, not two. *)
Lemma C5_upper_alphabet_never_matches :
  window_counts_spec "abc" UPPER_ALPHABET 0 = true
  /\ sequence_step (PyStr.lower "abc") UPPER_ALPHABET 0 0 = 0
  /\ sequence_step (PyStr.lower "ABC") UPPER_ALPHABET 0 0 = 0
  /\ _find_sequences "abc" = 1.
Proof. repeat split; reflexivity. Qed.

(** C6, as the code has it: a window adds one when its chunk occurs in the
    lower-cased password and one more when the reversed chunk occurs, so it
    adds 0, 1 or 2, and the detector returns the sum over all windows of
    all alphabets. *)
Theorem C6_window_adds_chunk_and_reverse
  (p lower seq : string) (count : Z) (i : nat) :
  sequence_step lower seq count i
  = count
    + Z.b2z (PyStr.contains (PyStr.slice i 3 seq) lower)
    + Z.b2z (PyStr.contains (PyStr.rev (PyStr.slice i 3 seq)) lower)
  /\ count <= sequence_step lower seq count i <= count + 2
  /\ _find_sequences p
     = sumZ (map (fun seq =>
                    sumZ (map (window_hits (PyStr.lower p) seq)
                              (PyStr.range (PyStr.len seq - 2))))
                 SEQUENCES).
Proof.
  split; [| split].
  - rewrite sequence_step_hits. unfold window_hits. lia.
  - rewrite sequence_step_hits.
    pose proof (window_hits_range lower seq i). lia.
  - apply find_sequences_sum.
Qed.

(** C6 as stated fails: in "abccba" the window "abc" occurs forwards and
    backwards and adds two. *)
Lemma C6_window_counts_twice :
  PyStr.contains "abc" (PyStr.lower "abccba") = true
  /\ PyStr.contains "cba" (PyStr.lower "abccba") = true
  /\ sequence_step (PyStr.lower "abccba") LOWER_ALPHABET 0 0 = 2
  /\ _find_sequences "abccba" = 2.
Proof. repeat split; reflexivity. Qed.

(** * The repetition detector *)

(** C10: the repetition detector matches on the password as typed.  Each of
    its three searches succeeds exactly when the password contains the same
    characters, equal as characters and so in the same case, two or three
    times in a row (none of them a newline): a character three times for the
    run check, a pair twice for the bigram check, a triple twice for the
    trigram check.  "aAa", "abAB" and "abcABC" fire nothing; their
    lower-cased forms do. *)
Theorem C10_repetition_is_case_sensitive (p : string) :
  (re_search (group_repeats_here 1 2) p = true
   <-> exists pre c post,
         re_dot c = true /\ p = pre ++ String c (String c (String c post)))
  /\ (re_search (group_repeats_here 2 1) p = true
      <-> exists pre g post,
            String.length g = 2%nat /\ PyStr.all re_dot g = true
            /\ p = pre ++ g ++ g ++ post)
  /\ (re_search (group_repeats_here 3 1) p = true
      <-> exists pre g post,
            String.length g = 3%nat /\ PyStr.all re_dot g = true
            /\ p = pre ++ g ++ g ++ post)
  /\ _repetition_penalty p
     = Z.b2z (re_search (group_repeats_here 1 2) p)
       + Z.b2z (re_search (group_repeats_here 2 1) p)
       + Z.b2z (re_search (group_repeats_here 3 1) p)
  /\ (_repetition_penalty "aAa" = 0 /\ _repetition_penalty "aaa" = 1)
  /\ (_repetition_penalty "abAB" = 0 /\ _repetition_penalty "abab" = 1)
  /\ (_repetition_penalty "abcABC" = 0 /\ _repetition_penalty "abcabc" = 1).
Proof.
  assert (G : forall n k,
             re_search (group_repeats_here n k) p = true
             <-> exists pre g post,
                   String.length g = n /\ PyStr.all re_dot g = true
                   /\ p = pre ++ PyStr.times g (S k) ++ post).
  { intros n k. rewrite re_search_iff. split.
    - intros (pre & suf & -> & H).
      apply group_repeats_here_iff in H as (g & post & Hl & Hd & ->).
      exists pre, g, post; auto.
    - intros (pre & g & post & Hl & Hd & ->).
      exists pre, (PyStr.times g (S k) ++ post). split; [reflexivity |].
      apply group_repeats_here_iff. exists g, post; auto. }
  split; [| split; [| split; [| split]]].
  - rewrite G. split.
    + intros (pre & g & post & Hl & Hd & ->).
      destruct g as [| c [| d g]]; try discriminate.
      exists pre, c, post. simpl in Hd. rewrite andb_true_r in Hd. auto.
    + intros (pre & c & post & Hc & ->).
      exists pre, (String c ""), post. simpl. rewrite Hc. auto.
  - rewrite G. split.
    + intros (pre & g & post & Hl & Hd & ->). exists pre, g, post.
      simpl. rewrite append_nil_r, append_assoc. auto.
    + intros (pre & g & post & Hl & Hd & ->). exists pre, g, post.
      simpl. rewrite append_nil_r, append_assoc. auto.
  - rewrite G. split.
    + intros (pre & g & post & Hl & Hd & ->). exists pre, g, post.
      simpl. rewrite append_nil_r, append_assoc. auto.
    + intros (pre & g & post & Hl & Hd & ->). exists pre, g, post.
      simpl. rewrite append_nil_r, append_assoc. auto.
  - unfold _repetition_penalty.
    destruct (re_search (group_repeats_here 1 2) p),
      (re_search (group_repeats_here 2 1) p),
      (re_search (group_repeats_here 3 1) p); reflexivity.
  - repeat split; reflexivity.
Qed.

(** * The crack-time projector *)

Section Humanize.

Lemma humanize_first_fitting (s : float) :
  humanize s = render s (first_fitting_unit s).
Proof.
  unfold humanize, first_fitting_unit, units, render, century.
  cbn [humanize_from find]. unfold fits. cbn [snd fst].
  repeat match goal with
         | |- context [PyFloat.ltb s ?b] =>
             destruct (PyFloat.ltb s b); cbn [orb String.eqb Ascii.eqb Bool.eqb andb];
             try reflexivity
         end.
Qed.

Lemma find_split {A : Type} (f : A -> bool) (l : list A) (u : A) :
  find f l = Some u ->
  exists pre post,
    l = (pre ++ u :: post)%list /\ f u = true /\ forall v, In v pre -> f v = false.
Proof.
  induction l as [| w l IH]; simpl; intros H; [discriminate |].
  destruct (f w) eqn:Ew.
  - injection H as ->. exists [], l. repeat split; [exact Ew | intros v []].
  - destruct (IH H) as (pre & post & -> & Hu & Hpre).
    exists (w :: pre), post. repeat split; [exact Hu |].
    intros v [<- | Hv]; [exact Ew | exact (Hpre v Hv)].
Qed.

End Humanize.

(** C7, as the code has it: the humanizer walks the units from "sec" up and
    takes the first one, that is the smallest, for which the duration is
    strictly less than sixty spans, "century" when none is; it prints the
    duration divided by that span with two decimals, a space and the unit
    name.  No unit before the chosen one fits, and the chosen one fits or is
    the last. *)
Theorem C7_humanize_takes_first_fitting_unit (s : float) :
  humanize s
  = PyFloat.format_2f (PyFloat.div s (PyFloat.of_int (snd (first_fitting_unit s))))
    ++ " " ++ fst (first_fitting_unit s)
  /\ exists pre post,
       units = (pre ++ first_fitting_unit s :: post)%list
       /\ (forall u, In u pre -> fits s u = false)
       /\ (fits s (first_fitting_unit s) = true \/ post = []).
Proof.
  split; [apply humanize_first_fitting |].
  unfold first_fitting_unit.
  destruct (find (fits s) units) as [u |] eqn:E.
  - destruct (find_split _ _ _ E) as (pre & post & Hu & Hf & Hpre).
    exists pre, post. auto.
  - exists (removelast units), []. split; [reflexivity |].
    split; [| right; reflexivity].
    intros u Hu. apply (find_none _ _ E).
    unfold units in *. simpl in *. intuition.
Qed.

(** C7 as stated fails: one second is below sixty spans of every unit, so the
    largest unit that fits is the century, yet the humanizer answers in
    seconds. *)
Lemma C7_one_second_stays_in_seconds :
  humanize (PyFloat.of_int 1) = "1.00 sec"
  /\ largest_fitting_unit_spec (PyFloat.of_int 1) = century
  /\ render (PyFloat.of_int 1) (largest_fitting_unit_spec (PyFloat.of_int 1))
     = "0.00 century"
  /\ humanize (PyFloat.of_int 1)
     <> render (PyFloat.of_int 1) (largest_fitting_unit_spec (PyFloat.of_int 1)).
Proof. repeat split; try reflexivity. discriminate. Qed.

(** C4, as the code has it: at zero bits, whether the integer [0] of the
    empty-password branch or a float zero, the exponent [max(bits - 1, 0)] is
    the integer [0] and the expected number of guesses is [2 ** 0 = 1], not
    zero.  One guess takes [1e-10] seconds offline, printed "0.00 sec", and
    [0.01] seconds online, printed "0.01 sec". *)
Theorem C4_zero_bits_is_one_guess (M : LibM) (b : num) :
  In b [Int 0; Float (S754_zero false); Float (S754_zero true)] ->
  expected_guesses b = Ok (Int 1)
  /\ crack_time_estimates b default_guesses_per_sec
     = Ok {| offline_fast := "0.00 sec"; online_slow := "0.01 sec" |}.
Proof.
  intros [<- | [<- | [<- | []]]]; split; reflexivity.
Qed.

Lemma C4_zero_bits_is_one_guess_witness :
  expected_guesses (Int 0) = Ok (Int 1)
  /\ crack_time_estimates (Int 0) default_guesses_per_sec
     = Ok {| offline_fast := "0.00 sec"; online_slow := "0.01 sec" |}.
Proof.
  apply (C4_zero_bits_is_one_guess ref_libm (Int 0)). left. reflexivity.
Defined.

(** C4 as stated fails: zero bits give one expected guess, and the online
    scenario prints "0.01 sec". *)
Lemma C4_online_slow_is_not_zero :
  expected_guesses (Int 0) <> Ok (Int 0)
  /\ exists e, crack_time_estimates (Int 0) default_guesses_per_sec = Ok e
               /\ offline_fast e = "0.00 sec"
               /\ online_slow e = "0.01 sec"
               /\ online_slow e <> "0.00 sec".
Proof.
  split; [discriminate |].
  eexists. split; [reflexivity |]. repeat split. discriminate.
Qed.

(** * The entropy estimate and the score *)

Section EngineFacts.

Context {M : LibM}.

Lemma pool_size_spec (p : string) : _char_pool_size p = pool_spec p.
Proof.
  unfold _char_pool_size, pool_spec.
  destruct (_has_lower p), (_has_upper p), (_has_digit p), (_has_symbol p);
    reflexivity.
Qed.

Lemma pool_size_range (p : string) : 1 <= _char_pool_size p <= 95.
Proof.
  unfold _char_pool_size.
  destruct (_has_lower p), (_has_upper p), (_has_digit p), (_has_symbol p);
    cbn; lia.
Qed.

Lemma log2_pool (p : string) :
  let c := libm_log2 (PyFloat.of_int (_char_pool_size p)) in
  FloatSpec.finite_nonneg c /\ FloatSpec.val c <= 2 ^ 1077.
Proof.
  intros c. pose proof (libm_log2_range _ (pool_size_range p)) as H. fold c in H.
  unfold log2_in_range in H. apply andb_true_iff in H as [F L].
  apply FloatFacts.is_nonneg_finite_iff in F. split; [exact F |].
  rewrite <- FloatFacts.val_eight.
  apply FloatFacts.leb_val;
    [apply FloatFacts.finite_nonneg_nonneg; exact F | reflexivity | exact L].
Qed.

Lemma len_nonneg (p : string) : 0 <= PyStr.len p.
Proof. unfold PyStr.len. lia. Qed.

Lemma entropy_bits_finite (p : string) :
  PyStr.len p < 2 ^ 63 -> FloatSpec.finite_nonneg (estimate_entropy_bits p).
Proof.
  intros H. destruct (log2_pool p) as [F V].
  apply FloatFacts.mul_length_finite; [pose proof (len_nonneg p); lia | exact F | exact V].
Qed.

(** [int(bits / 4)] succeeds and is the floor of the quotient. *)
Lemma entropy_bonus_floor (p : string) :
  PyStr.len p < 2 ^ 63 ->
  let q := PyFloat.div (estimate_entropy_bits p) (PyFloat.of_int 4) in
  PyFloat.to_int q = Ok (FloatSpec.float_floor q) /\ 0 <= FloatSpec.float_floor q.
Proof.
  intros H q. apply FloatFacts.to_int_floor.
  apply FloatFacts.div4_finite, entropy_bits_finite, H.
Qed.

Lemma class_count_range (p : string) : 0 <= class_count p <= 4.
Proof.
  unfold class_count.
  destruct (_has_lower p), (_has_upper p), (_has_digit p), (_has_symbol p);
    cbn; lia.
Qed.

Lemma variety_lookup (p : string) :
  list_get [0; 10; 20; 30; 35] (class_count p) = Ok (variety_spec (class_count p)).
Proof.
  unfold class_count.
  destruct (_has_lower p), (_has_upper p), (_has_digit p), (_has_symbol p);
    reflexivity.
Qed.

Lemma length_band_code (L : Z) (feedback : list string) :
  (if L <? 6 then (0 + 0, list_append feedback msg_length)
   else if L <? 8 then (0 + 10, feedback)
   else if L <? 12 then (0 + 20, feedback)
   else if L <? 16 then (0 + 30, feedback)
   else (0 + 40, feedback))
  = (length_band_spec L, if L <? 6 then list_append feedback msg_length else feedback).
Proof.
  unfold length_band_spec.
  destruct (Z.ltb_spec L 6), (Z.ltb_spec L 8), (Z.ltb_spec L 12), (Z.ltb_spec L 16),
    (Z.leb_spec L 7), (Z.leb_spec L 11), (Z.leb_spec L 15); try lia; reflexivity.
Qed.

Lemma score_before_penalty_spec (p : string) :
  PyStr.len p < 2 ^ 63 ->
  score_before_penalty p
  = Ok (estimate_entropy_bits p,
        length_band_spec (PyStr.len p) + variety_spec (class_count p)
        + entropy_bonus_spec (estimate_entropy_bits p),
        if PyStr.len p <? 6 then [msg_length] else []).
Proof.
  intros H. unfold score_before_penalty.
  rewrite length_band_code. fold (class_count p). rewrite variety_lookup.
  cbn [bind]. destruct (entropy_bonus_floor p H) as [-> _]. cbn [bind].
  unfold entropy_bonus_spec. destruct (PyStr.len p <? 6); reflexivity.
Qed.

Lemma sumZ_nonneg (l : list Z) : (forall x, In x l -> 0 <= x) -> 0 <= sumZ l.
Proof.
  induction l as [| x l IH]; intros H; simpl; [lia |].
  pose proof (H x (or_introl eq_refl)).
  assert (0 <= sumZ l) by (apply IH; intros y Hy; apply H; right; exact Hy). lia.
Qed.

Lemma find_sequences_nonneg (p : string) : 0 <= _find_sequences p.
Proof.
  rewrite find_sequences_sum. apply sumZ_nonneg. intros x Hx.
  apply in_map_iff in Hx as (seq & <- & _). unfold alphabet_hits.
  apply sumZ_nonneg. intros y Hy. apply in_map_iff in Hy as (i & <- & _).
  apply window_hits_range.
Qed.

Lemma repetition_penalty_range (p : string) : 0 <= _repetition_penalty p <= 3.
Proof.
  unfold _repetition_penalty.
  destruct (re_search (group_repeats_here 1 2) p),
    (re_search (group_repeats_here 2 1) p),
    (re_search (group_repeats_here 3 1) p); lia.
Qed.

Lemma dictionary_hits_nonneg (p : string) : 0 <= _dictionary_hits p.
Proof.
  unfold _dictionary_hits.
  generalize (PyStr.lower p) (PyStr.map LEET_MAP (PyStr.lower p)). intros plain norm.
  assert (H : forall l h, h <= fold_left
             (fun hits w =>
                if PyStr.contains w plain || PyStr.contains w norm
                then hits + 1 else hits) l h).
  { induction l as [| w l IH]; intros h; simpl; [lia |].
    destruct (PyStr.contains w plain || PyStr.contains w norm);
      [specialize (IH (h + 1)) | specialize (IH h)]; lia. }
  apply H.
Qed.

Lemma nonzero_positive (x : Z) : 0 <= x -> (x =? 0) = negb (0 <? x).
Proof.
  intros H. destruct (Z.eqb_spec x 0), (Z.ltb_spec 0 x); simpl; lia || reflexivity.
Qed.

Lemma feedback_code (fb : list string) (s r d : Z) (bu bl bd bs : bool) :
  0 <= s -> 0 <= r -> 0 <= d ->
  let feedback := fb in
  let feedback := if s =? 0 then feedback else list_append feedback msg_sequences in
  let feedback := if r =? 0 then feedback else list_append feedback msg_repeats in
  let feedback := if d =? 0 then feedback else list_append feedback msg_dictionary in
  let feedback := if negb bu then list_append feedback msg_upper else feedback in
  let feedback := if negb bl then list_append feedback msg_lower else feedback in
  let feedback := if negb bd then list_append feedback msg_digit else feedback in
  let feedback := if negb bs then list_append feedback msg_symbol else feedback in
  feedback
  = (fb
     ++ (if 0 <? s then [msg_sequences] else [])
     ++ (if 0 <? r then [msg_repeats] else [])
     ++ (if 0 <? d then [msg_dictionary] else [])
     ++ (if bu then [] else [msg_upper])
     ++ (if bl then [] else [msg_lower])
     ++ (if bd then [] else [msg_digit])
     ++ (if bs then [] else [msg_symbol]))%list.
Proof.
  intros Hs Hr Hd. cbn zeta.
  rewrite !nonzero_positive by assumption. unfold list_append.
  destruct (0 <? s), (0 <? r), (0 <? d), bu, bl, bd, bs; cbn [negb];
    rewrite <- ?app_assoc, ?app_nil_r; reflexivity.
Qed.

Lemma score_locals_spec (p : string) :
  PyStr.len p < 2 ^ 63 ->
  let raw := length_band_spec (PyStr.len p) + variety_spec (class_count p)
             + entropy_bonus_spec (estimate_entropy_bits p) in
  let final := Z.max 0 (Z.min 100 (raw - penalty_spec p)) in
  score_locals p
  = Ok {| l_bits := estimate_entropy_bits p;
          l_score := final;
          l_feedback := feedback_spec p;
          l_seqs := _find_sequences p;
          l_reps := _repetition_penalty p;
          l_dicts := _dictionary_hits p;
          l_label := label_spec final |}.
Proof.
  intros H raw final. unfold score_locals.
  rewrite (score_before_penalty_spec p H). cbn [bind]. cbn zeta.
  pose proof (feedback_code (if PyStr.len p <? 6 then [msg_length] else [])
                _ _ _ (_has_upper p) (_has_lower p) (_has_digit p) (_has_symbol p)
                (find_sequences_nonneg p) (proj1 (repetition_penalty_range p))
                (dictionary_hits_nonneg p)) as F.
  cbn zeta in F. rewrite F. subst final raw.
  unfold penalty_spec, feedback_spec, label_of, label_spec. reflexivity.
Qed.

Lemma nonempty_eqb (p : string) : p <> "" -> (p =? "")%string = false.
Proof. intros H. apply String.eqb_neq. exact H. Qed.

(** What [score_password] returns for a non-empty password, when it returns:
    the local variables, the rounded bits and the estimates. *)
Lemma score_password_nonempty (p : string) (r : AnalysisResult) :
  p <> "" -> score_password p = Ok r ->
  exists st est,
    score_locals p = Ok st
    /\ crack_time_estimates (Float (l_bits st)) default_guesses_per_sec = Ok est
    /\ r = {| score := l_score st; label := l_label st;
              bits := PyFloat.round2 (l_bits st);
              penalty_detail :=
                Some {| sequences := l_seqs st; repeats := l_reps st;
                        dictionary_hits := l_dicts st |};
              feedback := l_feedback st; estimates := est |}.
Proof.
  intros Hp. unfold score_password. rewrite (nonempty_eqb p Hp).
  destruct (score_locals p) as [st | e]; [| intros H; inversion H].
  unfold bind at 1.
  destruct (crack_time_estimates (Float (l_bits st)) default_guesses_per_sec)
    as [est | e] eqn:E; [| intros H; inversion H].
  unfold bind. intros H. inversion H. exists st, est. auto.
Qed.

(** It returns whenever the crack-time projector does. *)
Lemma score_password_returns (p : string) (st : Locals) (est : Estimates) :
  p <> "" -> score_locals p = Ok st ->
  crack_time_estimates (Float (l_bits st)) default_guesses_per_sec = Ok est ->
  exists r, score_password p = Ok r.
Proof.
  intros Hp Hs E. unfold score_password. rewrite (nonempty_eqb p Hp), Hs.
  unfold bind at 1. rewrite E. unfold bind. eexists. reflexivity.
Qed.

(** ** The errors of the crack-time projector and of the entry point *)

Lemma truediv_nonzero (x y : float) :
  PyFloat.is_zero y = false -> PyFloat.truediv x y = Ok (PyFloat.div x y).
Proof. intros H. unfold PyFloat.truediv. rewrite H. reflexivity. Qed.

Lemma truediv_zero (x y : float) :
  PyFloat.is_zero y = true -> PyFloat.truediv x y = Raise ZeroDivisionError.
Proof. intros H. unfold PyFloat.truediv. rewrite H. reflexivity. Qed.

(** The two divisions of [crack_time_estimates], for a number of guesses
    that is the integer 1 or a float. *)
Lemma estimates_of_guesses (g : num) (gps : float) :
  (g = Int 1 \/ exists r, g = Float r) ->
  (PyFloat.is_zero gps = true ->
   (seconds <- num_truediv g (Float gps) ;;
    slow <- num_truediv g (Int 100) ;;
    Ok {| offline_fast := humanize seconds; online_slow := humanize slow |})
   = Raise ZeroDivisionError)
  /\ (PyFloat.is_zero gps = false ->
      exists est,
        (seconds <- num_truediv g (Float gps) ;;
         slow <- num_truediv g (Int 100) ;;
         Ok {| offline_fast := humanize seconds; online_slow := humanize slow |})
        = Ok est).
Proof.
  intros [-> | [r ->]]; split; intros Hz; cbn [num_truediv].
  - change (PyFloat.float_of_int 1) with (Ok (PyFloat.of_int 1)). cbn [bind].
    rewrite (truediv_zero _ _ Hz). reflexivity.
  - change (PyFloat.float_of_int 1) with (Ok (PyFloat.of_int 1)). cbn [bind].
    rewrite (truediv_nonzero _ _ Hz). cbn [bind].
    change (PyFloat.int_truediv 1 100)
      with (Ok (S754_finite false 5764607523034235 (-59))).
    cbn [bind]. eexists. reflexivity.
  - rewrite (truediv_zero _ _ Hz). reflexivity.
  - rewrite (truediv_nonzero _ _ Hz). cbn [bind].
    change (PyFloat.float_of_int 100) with (Ok (PyFloat.of_int 100)). cbn [bind].
    rewrite truediv_nonzero by reflexivity. cbn [bind]. eexists. reflexivity.
Qed.

(** The expected guesses on a float: an error exactly when the power
    overflows, otherwise the integer 1 or a float. *)
Lemma expected_guesses_float (b : float) :
  (pow_overflows b = true /\ expected_guesses (Float b) = Raise OverflowError)
  \/ (pow_overflows b = false
      /\ exists g, expected_guesses (Float b) = Ok g
                   /\ (g = Int 1 \/ exists r, g = Float r)).
Proof.
  unfold expected_guesses, pow_overflows, num_sub1, num_max0.
  destruct (PyFloat.sub b (PyFloat.of_int 1)) as [s | s | | s m e] eqn:Ey.
  - right. split; [reflexivity |].
    destruct (PyFloat.ltb (S754_zero s) PyFloat.zero);
      cbn; eexists; split; try reflexivity; eauto.
  - right. split; [reflexivity |].
    destruct (PyFloat.ltb (S754_infinity s) PyFloat.zero);
      [cbn; eexists; split; try reflexivity; eauto |].
    destruct s; cbn; eexists; split; try reflexivity; eauto.
  - right. split; [reflexivity |].
    destruct (PyFloat.ltb S754_nan PyFloat.zero);
      cbn; eexists; split; try reflexivity; eauto.
  - destruct (PyFloat.ltb (S754_finite s m e) PyFloat.zero) eqn:El; cbn [negb andb].
    + right. split; [reflexivity |]. cbn. eexists; split; try reflexivity; eauto.
    + cbn [num_pow2 float_pow2].
      destruct (libm_pow2 (S754_finite s m e)) as [s' | s' | | s' m' e'];
        cbn [bind];
        first [ left; split; reflexivity
              | right; split; [reflexivity |]; eexists; split; try reflexivity; eauto ].
Qed.

Lemma crack_time_float_cases (b gps : float) :
  (pow_overflows b = true ->
   crack_time_estimates (Float b) gps = Raise OverflowError)
  /\ (pow_overflows b = false -> PyFloat.is_zero gps = true ->
      crack_time_estimates (Float b) gps = Raise ZeroDivisionError)
  /\ (pow_overflows b = false -> PyFloat.is_zero gps = false ->
      exists est, crack_time_estimates (Float b) gps = Ok est).
Proof.
  unfold crack_time_estimates.
  destruct (expected_guesses_float b) as [[Ho ->] | (Ho & g & -> & Hg)];
    rewrite Ho; cbn [bind].
  - split; [reflexivity |]. split; discriminate.
  - destruct (estimates_of_guesses g gps Hg) as [Z NZ].
    split; [discriminate |]. split; intros _ Hz; [exact (Z Hz) | exact (NZ Hz)].
Qed.

Lemma score_password_cases (p : string) :
  PyStr.len p < 2 ^ 63 ->
  (p <> "" /\ pow_overflows (estimate_entropy_bits p) = true
   /\ score_password p = Raise OverflowError)
  \/ ((p = "" \/ pow_overflows (estimate_entropy_bits p) = false)
      /\ exists r, score_password p = Ok r).
Proof.
  intros Hl. destruct (string_dec p "") as [-> | Hp].
  - right. split; [left; reflexivity |]. eexists. reflexivity.
  - unfold score_password. rewrite (nonempty_eqb p Hp).
    rewrite (score_locals_spec p Hl). cbn [bind l_bits].
    destruct (crack_time_float_cases (estimate_entropy_bits p) default_guesses_per_sec)
      as (C1 & _ & C3).
    destruct (pow_overflows (estimate_entropy_bits p)) eqn:Eo.
    + left. rewrite (C1 eq_refl). auto.
    + right. split; [right; reflexivity |].
      destruct (C3 eq_refl eq_refl) as [est ->]. cbn [bind]. eexists. reflexivity.
Qed.

(** A non-empty password whose power does not overflow gets a result, and
    the result carries the local variables. *)
Lemma score_password_result (p : string) :
  p <> "" -> PyStr.len p < 2 ^ 63 ->
  pow_overflows (estimate_entropy_bits p) = false ->
  exists r st,
    score_password p = Ok r /\ score_locals p = Ok st
    /\ score r = l_score st /\ label r = l_label st
    /\ feedback r = l_feedback st.
Proof.
  intros Hp Hl Ho.
  destruct (score_password_cases p Hl) as [(_ & Ho' & _) | (_ & r & E)];
    [congruence |].
  destruct (score_password_nonempty p r Hp E) as (st & est & Es & _ & Hr).
  exists r, st. rewrite Hr. cbn [score label feedback].
  rewrite <- Hr. auto.
Qed.

Lemma final_spec_range (p : string) : 0 <= final_spec p <= 100.
Proof. unfold final_spec. lia. Qed.

Lemma label_spec_thresholds (s : Z) :
  (s < 20 -> label_spec s = "Very Weak")
  /\ (20 <= s < 40 -> label_spec s = "Weak")
  /\ (40 <= s < 60 -> label_spec s = "Moderate")
  /\ (60 <= s < 80 -> label_spec s = "Strong")
  /\ (80 <= s -> label_spec s = "Excellent").
Proof.
  unfold label_spec.
  destruct (Z.ltb_spec s 20), (Z.ltb_spec s 40), (Z.ltb_spec s 60), (Z.ltb_spec s 80);
    repeat split; intros; try lia; reflexivity.
Qed.

Lemma score_locals_final (p : string) :
  PyStr.len p < 2 ^ 63 ->
  exists st,
    score_locals p = Ok st
    /\ l_bits st = estimate_entropy_bits p
    /\ l_score st = final_spec p
    /\ l_feedback st = feedback_spec p
    /\ l_seqs st = _find_sequences p
    /\ l_reps st = _repetition_penalty p
    /\ l_dicts st = _dictionary_hits p
    /\ l_label st = label_spec (final_spec p).
Proof.
  intros H. eexists. split; [apply (score_locals_spec p H) |].
  repeat split.
Qed.

End EngineFacts.

(** * The claims on the score aggregator and the entropy estimate *)

(** C1: for every non-empty password the final score is the raw score minus
    [sequences*8 + repetitions*8 + dictionaryHits*12], clamped to [0, 100],
    and the label follows from the final score alone by the thresholds 20,
    40, 60 and 80.  A result that [score_password] returns carries this score
    and this label, and [score_password] does return a result whenever the
    power [2 ** (bits - 1)] of the crack-time projector does not overflow. *)
Theorem C1_final_score_and_label (M : LibM) (p : string) :
  p <> "" -> PyStr.len p < 2 ^ 63 ->
  exists bits raw fb st,
    score_before_penalty p = Ok (bits, raw, fb)
    /\ score_locals p = Ok st
    /\ l_seqs st = _find_sequences p
    /\ l_reps st = _repetition_penalty p
    /\ l_dicts st = _dictionary_hits p
    /\ l_score st
       = Z.max 0 (Z.min 100 (raw - (l_seqs st * 8 + l_reps st * 8 + l_dicts st * 12)))
    /\ 0 <= l_score st <= 100
    /\ (l_score st < 20 -> l_label st = "Very Weak")
    /\ (20 <= l_score st < 40 -> l_label st = "Weak")
    /\ (40 <= l_score st < 60 -> l_label st = "Moderate")
    /\ (60 <= l_score st < 80 -> l_label st = "Strong")
    /\ (80 <= l_score st -> l_label st = "Excellent")
    /\ (forall r, score_password p = Ok r ->
                  score r = l_score st /\ label r = l_label st)
    /\ (pow_overflows (estimate_entropy_bits p) = false ->
        exists r, score_password p = Ok r
                  /\ score r = l_score st /\ label r = l_label st).
Proof.
  intros Hp Hl.
  destruct (score_locals_final p Hl) as (st & Hst & _ & Hs & _ & Hq & Hr & Hd & Hlab).
  pose proof (final_spec_range p) as R.
  pose proof (label_spec_thresholds (final_spec p)) as (T1 & T2 & T3 & T4 & T5).
  exists (estimate_entropy_bits p), (raw_spec p),
    (if PyStr.len p <? 6 then [msg_length] else []), st.
  rewrite Hs, Hq, Hr, Hd, Hlab.
  split; [apply (score_before_penalty_spec p Hl) |].
  split; [exact Hst |].
  do 3 (split; [reflexivity |]).
  split; [reflexivity |].
  split; [exact R |].
  split; [exact T1 |]. split; [exact T2 |]. split; [exact T3 |].
  split; [exact T4 |]. split; [exact T5 |]. split.
  - intros r H.
    destruct (score_password_nonempty p r Hp H) as (st' & est & Es & _ & ->).
    rewrite Hst in Es. injection Es as <-.
    cbn [score label]. rewrite Hs, Hlab. split; reflexivity.
  - intros Ho.
    destruct (score_password_result p Hp Hl Ho) as (r & st' & E & Es & Sc & La & _).
    rewrite Hst in Es. injection Es as <-.
    exists r. rewrite Sc, La, Hs, Hlab. auto.
Qed.

Lemma C1_final_score_and_label_witness :
  pow_overflows (estimate_entropy_bits "Password123") = false
  /\ exists bits raw fb st,
    score_before_penalty "Password123" = Ok (bits, raw, fb)
    /\ score_locals "Password123" = Ok st
    /\ l_seqs st = _find_sequences "Password123"
    /\ l_reps st = _repetition_penalty "Password123"
    /\ l_dicts st = _dictionary_hits "Password123"
    /\ l_score st
       = Z.max 0 (Z.min 100 (raw - (l_seqs st * 8 + l_reps st * 8 + l_dicts st * 12)))
    /\ 0 <= l_score st <= 100
    /\ (l_score st < 20 -> l_label st = "Very Weak")
    /\ (20 <= l_score st < 40 -> l_label st = "Weak")
    /\ (40 <= l_score st < 60 -> l_label st = "Moderate")
    /\ (60 <= l_score st < 80 -> l_label st = "Strong")
    /\ (80 <= l_score st -> l_label st = "Excellent")
    /\ (forall r, score_password "Password123" = Ok r ->
                  score r = l_score st /\ label r = l_label st)
    /\ (pow_overflows (estimate_entropy_bits "Password123") = false ->
        exists r, score_password "Password123" = Ok r
                  /\ score r = l_score st /\ label r = l_label st).
Proof.
  split; [vm_compute; reflexivity |].
  apply (C1_final_score_and_label ref_libm "Password123").
  - discriminate.
  - reflexivity.
Defined.

(** C2: for every non-empty password the raw score is the length band plus
    the variety score of the number of character classes present plus the
    entropy bonus [min(floor(bits/4), 25)], where [int(bits / 4)] is the
    floor of the float quotient. *)
Theorem C2_raw_score_is_length_variety_bonus (M : LibM) (p : string) :
  p <> "" -> PyStr.len p < 2 ^ 63 ->
  let bits := estimate_entropy_bits p in
  let quotient := PyFloat.div bits (PyFloat.of_int 4) in
  exists fb,
    score_before_penalty p
    = Ok (bits,
          length_band_spec (PyStr.len p) + variety_spec (class_count p)
          + Z.min (FloatSpec.float_floor quotient) 25,
          fb)
    /\ PyFloat.to_int quotient = Ok (FloatSpec.float_floor quotient)
    /\ 0 <= FloatSpec.float_floor quotient
    /\ 0 <= class_count p <= 4.
Proof.
  intros Hp Hl bits quotient. eexists. split; [| split; [| split]].
  - apply (score_before_penalty_spec p Hl).
  - apply (entropy_bonus_floor p Hl).
  - apply (entropy_bonus_floor p Hl).
  - apply class_count_range.
Qed.

Lemma C2_raw_score_is_length_variety_bonus_witness :
  let p := "Taco!River7-Moons" in
  let bits := estimate_entropy_bits p in
  let quotient := PyFloat.div bits (PyFloat.of_int 4) in
  exists fb,
    score_before_penalty p
    = Ok (bits,
          length_band_spec (PyStr.len p) + variety_spec (class_count p)
          + Z.min (FloatSpec.float_floor quotient) 25,
          fb)
    /\ PyFloat.to_int quotient = Ok (FloatSpec.float_floor quotient)
    /\ 0 <= FloatSpec.float_floor quotient
    /\ 0 <= class_count p <= 4.
Proof.
  apply (C2_raw_score_is_length_variety_bonus ref_libm "Taco!River7-Moons").
  - discriminate.
  - reflexivity.
Defined.

Example raw_score_strong :
  exists bits fb, score_before_penalty "Taco!River7-Moons" = Ok (bits, 40 + 35 + 25, fb).
Proof. do 2 eexists. vm_compute. reflexivity. Qed.

(** C8, as the code has it: the feedback of a non-empty password is, in this
    order, the length advice (iff the password has fewer than 6 characters),
    the sequence warning (iff sequences > 0), the repetition warning (iff
    repetitions > 0), the dictionary warning (iff dictionaryHits > 0), then
    one message per missing class in the order uppercase, lowercase, digit,
    symbol.  The sequence warning is the first element when sequences > 0
    and the password has at least 6 characters; below 6 characters the
    length advice is.  A result that [score_password] returns carries this
    list, and it returns one whenever the power [2 ** (bits - 1)] of the
    crack-time projector does not overflow. *)
Theorem C8_feedback_order (M : LibM) (p : string) :
  p <> "" -> PyStr.len p < 2 ^ 63 ->
  exists st,
    score_locals p = Ok st
    /\ l_feedback st
       = ((if PyStr.len p <? 6 then [msg_length] else [])
          ++ (if 0 <? _find_sequences p then [msg_sequences] else [])
          ++ (if 0 <? _repetition_penalty p then [msg_repeats] else [])
          ++ (if 0 <? _dictionary_hits p then [msg_dictionary] else [])
          ++ (if _has_upper p then [] else [msg_upper])
          ++ (if _has_lower p then [] else [msg_lower])
          ++ (if _has_digit p then [] else [msg_digit])
          ++ (if _has_symbol p then [] else [msg_symbol]))%list
    /\ (0 < _find_sequences p -> 6 <= PyStr.len p ->
        hd_error (l_feedback st) = Some msg_sequences)
    /\ (PyStr.len p < 6 -> hd_error (l_feedback st) = Some msg_length)
    /\ (forall r, score_password p = Ok r -> feedback r = l_feedback st)
    /\ (pow_overflows (estimate_entropy_bits p) = false ->
        exists r, score_password p = Ok r /\ feedback r = l_feedback st).
Proof.
  intros Hp Hl.
  destruct (score_locals_final p Hl) as (st & Hst & _ & _ & Hf & _).
  exists st. split; [exact Hst |]. rewrite Hf. unfold feedback_spec.
  split; [reflexivity |]. split; [| split; [| split]].
  - intros Hs H6.
    destruct (Z.ltb_spec (PyStr.len p) 6); [lia |].
    destruct (Z.ltb_spec 0 (_find_sequences p)); [reflexivity | lia].
  - intros H6. destruct (Z.ltb_spec (PyStr.len p) 6); [reflexivity | lia].
  - intros r H.
    destruct (score_password_nonempty p r Hp H) as (st' & est & Es & _ & ->).
    rewrite Hst in Es. injection Es as <-. cbn [feedback]. exact Hf.
  - intros Ho.
    destruct (score_password_result p Hp Hl Ho) as (r & st' & E & Es & _ & _ & Fe).
    rewrite Hst in Es. injection Es as <-.
    exists r. split; [exact E |]. rewrite Fe. exact Hf.
Qed.

Lemma C8_feedback_order_witness :
  let p := "abcdefgh" in
  pow_overflows (estimate_entropy_bits p) = false
  /\ exists st,
    score_locals p = Ok st
    /\ l_feedback st
       = ((if PyStr.len p <? 6 then [msg_length] else [])
          ++ (if 0 <? _find_sequences p then [msg_sequences] else [])
          ++ (if 0 <? _repetition_penalty p then [msg_repeats] else [])
          ++ (if 0 <? _dictionary_hits p then [msg_dictionary] else [])
          ++ (if _has_upper p then [] else [msg_upper])
          ++ (if _has_lower p then [] else [msg_lower])
          ++ (if _has_digit p then [] else [msg_digit])
          ++ (if _has_symbol p then [] else [msg_symbol]))%list
    /\ (0 < _find_sequences p -> 6 <= PyStr.len p ->
        hd_error (l_feedback st) = Some msg_sequences)
    /\ (PyStr.len p < 6 -> hd_error (l_feedback st) = Some msg_length)
    /\ (forall r, score_password p = Ok r -> feedback r = l_feedback st)
    /\ (pow_overflows (estimate_entropy_bits p) = false ->
        exists r, score_password p = Ok r /\ feedback r = l_feedback st).
Proof.
  split; [vm_compute; reflexivity |].
  apply (C8_feedback_order ref_libm "abcdefgh").
  - discriminate.
  - reflexivity.
Defined.

(** C8 as stated fails: "abc" has a sequence, yet its feedback starts with
    the length advice, which the claim's list leaves out. *)
Lemma C8_length_advice_comes_first :
  exists st,
    score_locals "abc" = Ok st
    /\ 0 < l_seqs st
    /\ l_feedback st
       = [msg_length; msg_sequences; msg_upper; msg_digit; msg_symbol]
    /\ hd_error (l_feedback st) <> Some msg_sequences.
Proof.
  eexists. split; [vm_compute; reflexivity |].
  split; [reflexivity |]. split; [reflexivity | discriminate].
Qed.

(** C9: the entropy estimate is the float product of the length and [log2]
    of the pool, the pool being 26, 26, 10 and 33 added up over the classes
    present and floored at 1; for two passwords with the same classes
    present, the longer one has at least as many bits. *)
Theorem C9_entropy_bits_monotone (M : LibM) (p1 p2 : string) :
  _has_lower p1 = _has_lower p2 -> _has_upper p1 = _has_upper p2 ->
  _has_digit p1 = _has_digit p2 -> _has_symbol p1 = _has_symbol p2 ->
  PyStr.len p1 <= PyStr.len p2 -> PyStr.len p2 < 2 ^ 63 ->
  _char_pool_size p1
  = Z.max 1
      ((if _has_lower p1 then 26 else 0) + (if _has_upper p1 then 26 else 0)
       + (if _has_digit p1 then 10 else 0) + (if _has_symbol p1 then 33 else 0))
  /\ estimate_entropy_bits p1
     = PyFloat.mul (PyFloat.of_int (PyStr.len p1))
         (libm_log2 (PyFloat.of_int (_char_pool_size p1)))
  /\ _char_pool_size p1 = _char_pool_size p2
  /\ PyFloat.leb (estimate_entropy_bits p1) (estimate_entropy_bits p2) = true.
Proof.
  intros Hlo Hup Hdi Hsy Hle Hlt.
  assert (Hpool : _char_pool_size p1 = _char_pool_size p2).
  { unfold _char_pool_size. rewrite Hlo, Hup, Hdi, Hsy. reflexivity. }
  split; [apply pool_size_spec |]. split; [reflexivity |]. split; [exact Hpool |].
  unfold estimate_entropy_bits. rewrite Hpool.
  destruct (log2_pool p2) as [F _].
  apply FloatFacts.mul_length_mono; [| exact Hlt | exact F].
  pose proof (len_nonneg p1). lia.
Qed.

Lemma C9_entropy_bits_monotone_witness :
  PyFloat.leb (estimate_entropy_bits "abc") (estimate_entropy_bits "abcxyz") = true.
Proof.
  refine (proj2 (proj2 (proj2
            (C9_entropy_bits_monotone ref_libm "abc" "abcxyz" _ _ _ _ _ _))));
    try reflexivity.
  vm_compute. discriminate.
Defined.

(** C3, as the code has it: the empty password gets score 0, label
    "Very Weak", bits 0.0, the single feedback item "Password is empty." and
    the crack-time estimates of zero bits, and its result has no
    [penalty_detail] entry.  The results for non-empty passwords have one,
    with three counts that are not negative. *)
Theorem C3_empty_password_result (M : LibM) :
  score_password ""
  = Ok {| score := 0; label := "Very Weak"; bits := S754_zero false;
          penalty_detail := None;
          feedback := ["Password is empty."];
          estimates := {| offline_fast := "0.00 sec"; online_slow := "0.01 sec" |} |}
  /\ crack_time_estimates (Int 0) default_guesses_per_sec
     = Ok {| offline_fast := "0.00 sec"; online_slow := "0.01 sec" |}
  /\ (forall p r, p <> "" -> score_password p = Ok r ->
        exists d, penalty_detail r = Some d
                  /\ sequences d = _find_sequences p
                  /\ repeats d = _repetition_penalty p
                  /\ dictionary_hits d = _dictionary_hits p
                  /\ 0 <= sequences d /\ 0 <= repeats d /\ 0 <= dictionary_hits d).
Proof.
  split; [reflexivity |]. split; [reflexivity |].
  intros p r Hp H.
  destruct (score_password_nonempty p r Hp H) as (st & est & Es & _ & ->).
  cbn [penalty_detail]. eexists. split; [reflexivity |].
  cbn [sequences repeats dictionary_hits].
  unfold score_locals in Es.
  destruct (score_before_penalty p) as [[[b sc] fb] | e]; [| inversion Es].
  unfold bind in Es. inversion Es. cbn [l_seqs l_reps l_dicts].
  pose proof (find_sequences_nonneg p). pose proof (repetition_penalty_range p).
  pose proof (dictionary_hits_nonneg p). repeat split; lia.
Qed.

(** C3 as stated fails: the result for the empty password has no penalty
    detail. *)
Lemma C3_empty_result_lacks_penalty_detail :
  exists r, score_password "" = Ok r /\ penalty_detail r = None.
Proof. eexists. split; reflexivity. Qed.

(** Beyond the claims: [2 ** (bits - 1)] overflows a float from 1025 bits
    on, and [score_password] then raises instead of returning; 400 letters
    are enough. *)
Example long_password_overflows :
  score_password (PyStr.times "a" 400) = Raise OverflowError.
Proof. vm_compute. reflexivity. Qed.

(** * Further properties of the detectors *)

Section DetectorFacts.

Lemma count_fold (f : string -> bool) (l : list string) (h : Z) :
  fold_left (fun hits w => if f w then hits + 1 else hits) l h
  = h + Z.of_nat (List.length (filter f l)).
Proof.
  revert h; induction l as [| w l IH]; intros h; simpl; [lia |].
  rewrite IH. destruct (f w); simpl List.length; lia.
Qed.

Lemma filter_length_le {A : Type} (f : A -> bool) (l : list A) :
  (List.length (filter f l) <= List.length l)%nat.
Proof.
  induction l as [| a l IH]; simpl; [lia |]. destruct (f a); simpl; lia.
Qed.

Lemma filter_length_mono {A : Type} (f g : A -> bool) (l : list A) :
  (forall a, In a l -> f a = true -> g a = true) ->
  (List.length (filter f l) <= List.length (filter g l))%nat.
Proof.
  induction l as [| a l IH]; intros H; simpl; [lia |].
  assert (IH' : (List.length (filter f l) <= List.length (filter g l))%nat)
    by (apply IH; intros b Hb; apply H; right; exact Hb).
  destruct (f a) eqn:Ef.
  - rewrite (H a (or_introl eq_refl) Ef). simpl. lia.
  - destruct (g a); simpl; lia.
Qed.

Lemma contains_map (f : ascii -> ascii) (w s : string) :
  PyStr.map f w = w -> PyStr.contains w s = true ->
  PyStr.contains w (PyStr.map f s) = true.
Proof.
  intros Hw H. apply contains_iff in H as (pre & post & ->).
  apply contains_iff. exists (PyStr.map f pre), (PyStr.map f post).
  rewrite !map_append, Hw. reflexivity.
Qed.

Lemma common_words_fixed (w : string) :
  In w COMMON_WORDS -> PyStr.map LEET_MAP w = w.
Proof.
  unfold COMMON_WORDS. simpl.
  intros H. repeat (destruct H as [<- | H]; [reflexivity |]). destruct H.
Qed.

(** The test on the plain form adds nothing to the test on the normalised
    form. *)
Lemma plain_or_norm (p w : string) :
  In w COMMON_WORDS ->
  PyStr.contains w (PyStr.lower p)
  || PyStr.contains w (PyStr.map LEET_MAP (PyStr.lower p))
  = word_found p w.
Proof.
  intros Hw. unfold word_found.
  destruct (PyStr.contains w (PyStr.lower p)) eqn:E; [| reflexivity].
  rewrite (contains_map LEET_MAP w _ (common_words_fixed w Hw) E). reflexivity.
Qed.

Lemma dictionary_hits_count (p : string) :
  _dictionary_hits p
  = Z.of_nat (List.length (filter (word_found p) COMMON_WORDS)).
Proof.
  unfold _dictionary_hits. rewrite count_fold. rewrite Z.add_0_l.
  f_equal. f_equal. apply filter_ext_in. intros w Hw.
  apply plain_or_norm. exact Hw.
Qed.

Lemma contains_embed (w pre s post : string) :
  PyStr.contains w s = true -> PyStr.contains w (pre ++ s ++ post) = true.
Proof.
  intros H. apply contains_iff in H as (a & b & ->).
  apply contains_iff. exists (pre ++ a), (b ++ post).
  rewrite !append_assoc. reflexivity.
Qed.

Lemma b2z_mono (a b : bool) : (a = true -> b = true) -> Z.b2z a <= Z.b2z b.
Proof.
  destruct a, b; simpl; intros H; first [lia | discriminate (H eq_refl)].
Qed.

Lemma sumZ_mono {A : Type} (f g : A -> Z) (l : list A) :
  (forall a, f a <= g a) -> sumZ (map f l) <= sumZ (map g l).
Proof.
  intros H. induction l as [| a l IH]; simpl; [lia |]. specialize (H a). lia.
Qed.

Lemma window_hits_embed (pre s post seq : string) (i : nat) :
  window_hits s seq i <= window_hits (pre ++ s ++ post) seq i.
Proof.
  unfold window_hits.
  pose proof (b2z_mono _ _ (contains_embed (PyStr.slice i 3 seq) pre s post)).
  pose proof (b2z_mono _ _
                (contains_embed (PyStr.rev (PyStr.slice i 3 seq)) pre s post)).
  lia.
Qed.

Lemma find_sequences_embed (pre p post : string) :
  _find_sequences p <= _find_sequences (pre ++ p ++ post).
Proof.
  rewrite !find_sequences_sum. unfold PyStr.lower. rewrite !map_append.
  apply sumZ_mono. intros seq. unfold alphabet_hits.
  apply sumZ_mono. intros i. apply window_hits_embed.
Qed.

(** A search for [(.{n})\1{k,}] succeeds exactly when the string contains
    [k + 1] copies in a row of some [n] characters other than a newline. *)
Lemma re_search_group (n k : nat) (p : string) :
  re_search (group_repeats_here n k) p = true
  <-> exists pre g post,
        String.length g = n /\ PyStr.all re_dot g = true
        /\ p = pre ++ PyStr.times g (S k) ++ post.
Proof.
  rewrite re_search_iff. split.
  - intros (pre & suf & -> & H).
    apply group_repeats_here_iff in H as (g & post & Hl & Hd & ->).
    exists pre, g, post; auto.
  - intros (pre & g & post & Hl & Hd & ->).
    exists pre, (PyStr.times g (S k) ++ post). split; [reflexivity |].
    apply group_repeats_here_iff. exists g, post; auto.
Qed.

Lemma re_search_group_embed (n k : nat) (pre p post : string) :
  re_search (group_repeats_here n k) p = true ->
  re_search (group_repeats_here n k) (pre ++ p ++ post) = true.
Proof.
  intros H. apply re_search_group in H as (a & g & b & Hl & Hd & ->).
  apply re_search_group. exists (pre ++ a), g, (b ++ post).
  rewrite !append_assoc. auto.
Qed.

Lemma repetition_penalty_sum (p : string) :
  _repetition_penalty p
  = Z.b2z (re_search (group_repeats_here 1 2) p)
    + Z.b2z (re_search (group_repeats_here 2 1) p)
    + Z.b2z (re_search (group_repeats_here 3 1) p).
Proof.
  unfold _repetition_penalty.
  destruct (re_search (group_repeats_here 1 2) p),
    (re_search (group_repeats_here 2 1) p),
    (re_search (group_repeats_here 3 1) p); reflexivity.
Qed.

Lemma repetition_penalty_embed (pre p post : string) :
  _repetition_penalty p <= _repetition_penalty (pre ++ p ++ post).
Proof.
  rewrite !repetition_penalty_sum.
  pose proof (b2z_mono _ _ (re_search_group_embed 1 2 pre p post)).
  pose proof (b2z_mono _ _ (re_search_group_embed 2 1 pre p post)).
  pose proof (b2z_mono _ _ (re_search_group_embed 3 1 pre p post)).
  lia.
Qed.

Lemma dictionary_hits_embed (pre p post : string) :
  _dictionary_hits p <= _dictionary_hits (pre ++ p ++ post).
Proof.
  rewrite !dictionary_hits_count. apply Nat2Z.inj_le.
  apply filter_length_mono. intros w _ H. unfold word_found, PyStr.lower in *.
  rewrite !map_append. apply contains_embed. exact H.
Qed.

End DetectorFacts.

(** X1: the dictionary detector counts the common words that occur in the
    lower-cased, leetspeak-normalised password, each once; the test on the
    plain lower-cased form never adds a word, because no common word contains
    a substituted character.  The count lies between 0 and 13 and ignores the
    letter case of the password. *)
Theorem X1_dictionary_hits_counts_normalised_words (p : string) :
  _dictionary_hits p
  = Z.of_nat (List.length (filter (word_found p) COMMON_WORDS))
  /\ 0 <= _dictionary_hits p <= 13
  /\ (forall w, In w COMMON_WORDS ->
                PyStr.contains w (PyStr.lower p) = true -> word_found p w = true)
  /\ (forall q, PyStr.lower q = PyStr.lower p ->
                _dictionary_hits q = _dictionary_hits p).
Proof.
  split; [apply dictionary_hits_count |]. split; [| split].
  - rewrite dictionary_hits_count.
    pose proof (filter_length_le (word_found p) COMMON_WORDS) as H.
    change (List.length COMMON_WORDS) with 13%nat in H. lia.
  - intros w Hw H. rewrite <- (plain_or_norm p w Hw), H. reflexivity.
  - intros q Hq. rewrite !dictionary_hits_count. unfold word_found.
    rewrite Hq. reflexivity.
Qed.

(** X2: characters added in front of or behind a password never remove a
    detected pattern: each of the three detectors counts at least as much on
    the longer string. *)
Theorem X2_detectors_grow_with_the_password (pre p post : string) :
  _find_sequences p <= _find_sequences (pre ++ p ++ post)
  /\ _repetition_penalty p <= _repetition_penalty (pre ++ p ++ post)
  /\ _dictionary_hits p <= _dictionary_hits (pre ++ p ++ post).
Proof.
  split; [apply find_sequences_embed |].
  split; [apply repetition_penalty_embed | apply dictionary_hits_embed].
Qed.

Section ReversalFacts.

Lemma rev_append (a b : string) :
  PyStr.rev (a ++ b) = PyStr.rev b ++ PyStr.rev a.
Proof.
  induction a as [| c a IH]; simpl.
  - now rewrite append_nil_r.
  - rewrite IH, append_assoc. reflexivity.
Qed.

Lemma rev_involutive (s : string) : PyStr.rev (PyStr.rev s) = s.
Proof.
  induction s as [| c s IH]; simpl; [reflexivity |].
  rewrite rev_append, IH. reflexivity.
Qed.

Lemma contains_rev_true (a s : string) :
  PyStr.contains a (PyStr.rev s) = true -> PyStr.contains (PyStr.rev a) s = true.
Proof.
  intros H. apply contains_iff in H as (pre & post & H).
  apply contains_iff. exists (PyStr.rev post), (PyStr.rev pre).
  rewrite <- (rev_involutive s), H, !rev_append, append_assoc. reflexivity.
Qed.

Lemma contains_rev (a s : string) :
  PyStr.contains a (PyStr.rev s) = PyStr.contains (PyStr.rev a) s.
Proof.
  destruct (PyStr.contains a (PyStr.rev s)) eqn:E1.
  - symmetry. apply contains_rev_true. exact E1.
  - destruct (PyStr.contains (PyStr.rev a) s) eqn:E2; [| reflexivity].
    rewrite <- (rev_involutive s) in E2. apply contains_rev_true in E2.
    rewrite rev_involutive in E2. congruence.
Qed.

Lemma window_hits_rev (s seq : string) (i : nat) :
  window_hits (PyStr.rev s) seq i = window_hits s seq i.
Proof.
  unfold window_hits. rewrite !contains_rev, rev_involutive. lia.
Qed.

(** The count is read off the lower-cased password, and is the same on a
    lower-cased form and on its reverse. *)
Lemma find_sequences_lowered_rev (p q : string) :
  PyStr.lower q = PyStr.rev (PyStr.lower p) ->
  _find_sequences q = _find_sequences p.
Proof.
  intros H. rewrite !find_sequences_sum, H.
  f_equal. apply map_ext. intros seq. unfold alphabet_hits.
  f_equal. apply map_ext. intros i. apply window_hits_rev.
Qed.

Lemma times_snoc (g : string) (n : nat) :
  PyStr.times g n ++ g = g ++ PyStr.times g n.
Proof.
  induction n as [| n IH]; simpl.
  - now rewrite append_nil_r.
  - rewrite append_assoc, IH. reflexivity.
Qed.

Lemma times_rev (g : string) (n : nat) :
  PyStr.rev (PyStr.times g n) = PyStr.times (PyStr.rev g) n.
Proof.
  induction n as [| n IH]; simpl; [reflexivity |].
  rewrite rev_append, IH. apply times_snoc.
Qed.

Lemma all_append (f : ascii -> bool) (a b : string) :
  PyStr.all f (a ++ b) = PyStr.all f a && PyStr.all f b.
Proof.
  induction a as [| c a IH]; simpl; [reflexivity |].
  rewrite IH. apply andb_assoc.
Qed.

Lemma all_rev (f : ascii -> bool) (s : string) :
  PyStr.all f (PyStr.rev s) = PyStr.all f s.
Proof.
  induction s as [| c s IH]; simpl; [reflexivity |].
  rewrite all_append, IH. simpl. rewrite andb_true_r. apply andb_comm.
Qed.

Lemma length_rev (s : string) : String.length (PyStr.rev s) = String.length s.
Proof.
  induction s as [| c s IH]; simpl; [reflexivity |].
  rewrite length_append, IH. simpl. lia.
Qed.

Lemma re_search_group_rev_true (n k : nat) (p : string) :
  re_search (group_repeats_here n k) p = true ->
  re_search (group_repeats_here n k) (PyStr.rev p) = true.
Proof.
  intros H. apply re_search_group in H as (pre & g & post & Hl & Hd & ->).
  apply re_search_group. exists (PyStr.rev post), (PyStr.rev g), (PyStr.rev pre).
  rewrite length_rev, all_rev. repeat split; try assumption.
  rewrite !rev_append, times_rev, append_assoc. reflexivity.
Qed.

Lemma re_search_group_rev (n k : nat) (p : string) :
  re_search (group_repeats_here n k) (PyStr.rev p)
  = re_search (group_repeats_here n k) p.
Proof.
  destruct (re_search (group_repeats_here n k) p) eqn:E.
  - apply re_search_group_rev_true. exact E.
  - destruct (re_search (group_repeats_here n k) (PyStr.rev p)) eqn:E2;
      [| reflexivity].
    apply re_search_group_rev_true in E2. rewrite rev_involutive in E2. congruence.
Qed.

Lemma repetition_penalty_rev (p : string) :
  _repetition_penalty (PyStr.rev p) = _repetition_penalty p.
Proof. rewrite !repetition_penalty_sum, !re_search_group_rev. reflexivity. Qed.

Lemma alphabet_hits_bound (lower seq : string) :
  0 <= alphabet_hits lower seq <= 2 * Z.max 0 (PyStr.len seq - 2).
Proof.
  unfold alphabet_hits, PyStr.range.
  assert (H : forall l, 0 <= sumZ (map (window_hits lower seq) l)
                        <= 2 * Z.of_nat (List.length l)).
  { induction l as [| i l IH]; [simpl; lia |].
    cbn [map sumZ fold_right List.length]. fold (sumZ (map (window_hits lower seq) l)).
    pose proof (window_hits_range lower seq i). lia. }
  specialize (H (List.seq 0 (Z.to_nat (PyStr.len seq - 2)))).
  rewrite length_seq in H. lia.
Qed.

End ReversalFacts.

(** X3: the detectors do not depend on the direction of reading.  The
    sequence detector reads the lower-cased password only and gives the same
    count for two passwords whose lower-cased forms are the reverse of one
    another; the repetition detector, which reads the password as it is,
    gives the same count for a password and for the password written
    backwards. *)
Theorem X3_detectors_ignore_direction (p q : string) :
  PyStr.lower q = PyStr.rev (PyStr.lower p) ->
  _find_sequences q = _find_sequences p
  /\ _repetition_penalty (PyStr.rev p) = _repetition_penalty p.
Proof.
  intros H. split; [apply find_sequences_lowered_rev, H |].
  apply repetition_penalty_rev.
Qed.

Lemma X3_detectors_ignore_direction_witness :
  PyStr.lower "91CBax-zz" = PyStr.rev (PyStr.lower "zz-xAbc19")
  /\ _find_sequences "91CBax-zz" = _find_sequences "zz-xAbc19"
  /\ _repetition_penalty (PyStr.rev "zz-xAbc19") = _repetition_penalty "zz-xAbc19".
Proof.
  split; [reflexivity |].
  apply (X3_detectors_ignore_direction "zz-xAbc19" "91CBax-zz"). reflexivity.
Defined.

(** X4: the sequence detector returns at most 112, two for each of the 24
    windows of the lower-case alphabet, the 8 windows of the digits and the
    24 windows of the keyboard row; the repetition detector returns 0, 1, 2
    or 3.  The deduction from the score is therefore at most 1076. *)
Theorem X4_penalty_counts_are_bounded (p : string) :
  0 <= _find_sequences p <= 112
  /\ 0 <= _repetition_penalty p <= 3
  /\ 0 <= _find_sequences p * 8 + _repetition_penalty p * 8 + _dictionary_hits p * 12
     <= 1076.
Proof.
  assert (S : 0 <= _find_sequences p <= 112).
  { rewrite find_sequences_sum.
    change SEQUENCES with [LOWER_ALPHABET; UPPER_ALPHABET; DIGITS; KEYBOARD_ROW].
    cbn [map sumZ fold_right]. rewrite upper_alphabet_silent.
    pose proof (alphabet_hits_bound (PyStr.lower p) LOWER_ALPHABET) as A.
    pose proof (alphabet_hits_bound (PyStr.lower p) DIGITS) as B.
    pose proof (alphabet_hits_bound (PyStr.lower p) KEYBOARD_ROW) as C.
    change (PyStr.len LOWER_ALPHABET) with 26 in A.
    change (PyStr.len DIGITS) with 10 in B.
    change (PyStr.len KEYBOARD_ROW) with 26 in C. lia. }
  pose proof (repetition_penalty_range p) as R.
  assert (D : 0 <= _dictionary_hits p <= 13).
  { rewrite dictionary_hits_count.
    pose proof (filter_length_le (word_found p) COMMON_WORDS) as H.
    change (List.length COMMON_WORDS) with 13%nat in H. lia. }
  split; [exact S |]. split; [exact R | lia].
Qed.

(** * Further properties of the classifier and the aggregator *)

Section ClassFacts.

Lemma any_append (f : ascii -> bool) (a b : string) :
  PyStr.any f (a ++ b) = PyStr.any f a || PyStr.any f b.
Proof.
  induction a as [| c a IH]; simpl; [reflexivity |].
  rewrite IH. apply orb_assoc.
Qed.

(** A class present in a password is present in every password that
    contains it. *)
Lemma any_embed (f : ascii -> bool) (pre p post : string) :
  PyStr.any f p = true -> PyStr.any f (pre ++ p ++ post) = true.
Proof.
  intros H. rewrite !any_append, H. now rewrite orb_true_r.
Qed.

Lemma classes_embed (pre p post : string) :
  class_count p <= class_count (pre ++ p ++ post)
  /\ _char_pool_size p <= _char_pool_size (pre ++ p ++ post).
Proof.
  unfold _char_pool_size, class_count, _has_lower, _has_upper, _has_digit,
    _has_symbol.
  pose proof (any_embed PyStr.islower pre p post) as Hlo.
  pose proof (any_embed PyStr.isupper pre p post) as Hup.
  pose proof (any_embed PyStr.isdigit pre p post) as Hdi.
  pose proof (any_embed (fun c => negb (PyStr.isalnum c)) pre p post) as Hsy.
  destruct (PyStr.any PyStr.islower p);
    [rewrite (Hlo eq_refl) | destruct (PyStr.any PyStr.islower (pre ++ p ++ post))];
    (destruct (PyStr.any PyStr.isupper p);
     [rewrite (Hup eq_refl) | destruct (PyStr.any PyStr.isupper (pre ++ p ++ post))]);
    (destruct (PyStr.any PyStr.isdigit p);
     [rewrite (Hdi eq_refl) | destruct (PyStr.any PyStr.isdigit (pre ++ p ++ post))]);
    (destruct (PyStr.any (fun c => negb (PyStr.isalnum c)) p);
     [rewrite (Hsy eq_refl)
     | destruct (PyStr.any (fun c => negb (PyStr.isalnum c)) (pre ++ p ++ post))]);
    cbn; split; lia.
Qed.

Lemma pool_by_class_count (p : string) :
  In (_char_pool_size p) POOL_SIZES
  /\ (_char_pool_size p = 1 <-> class_count p = 0)
  /\ (1 <= class_count p -> 10 <= _char_pool_size p)
  /\ (_char_pool_size p = 95 <-> class_count p = 4).
Proof.
  unfold _char_pool_size, class_count, POOL_SIZES.
  destruct (_has_lower p), (_has_upper p), (_has_digit p), (_has_symbol p);
    cbn; intuition lia.
Qed.

End ClassFacts.

(** X5: the pool size is one of twelve values, 1 or between 10 and 95.  It
    is 1 exactly when none of the four classes is present and 95 exactly when
    all four are.  Characters added in front of or behind a password never
    remove a class, so neither the number of classes nor the pool size goes
    down. *)
Theorem X5_pool_sizes_and_classes (pre p post : string) :
  In (_char_pool_size p) POOL_SIZES
  /\ (_char_pool_size p = 1 <->
      _has_lower p = false /\ _has_upper p = false
      /\ _has_digit p = false /\ _has_symbol p = false)
  /\ (_char_pool_size p <> 1 -> 10 <= _char_pool_size p <= 95)
  /\ (_char_pool_size p = 95 <-> class_count p = 4)
  /\ 0 <= class_count p <= 4
  /\ class_count p <= class_count (pre ++ p ++ post)
  /\ _char_pool_size p <= _char_pool_size (pre ++ p ++ post).
Proof.
  destruct (pool_by_class_count p) as (H1 & H2 & H3 & H4).
  pose proof (class_count_range p) as R.
  pose proof (pool_size_range p) as PR.
  destruct (classes_embed pre p post) as [E1 E2].
  split; [exact H1 |]. split; [| split; [| split; [exact H4 |]]].
  - rewrite H2. unfold class_count.
    destruct (_has_lower p), (_has_upper p), (_has_digit p), (_has_symbol p);
      cbn; intuition (try lia; try discriminate).
  - intros H. split; [| lia]. apply H3.
    destruct (Z.eq_dec (class_count p) 0) as [E | E]; [| lia].
    apply H2 in E. contradiction.
  - split; [exact R |]. split; [exact E1 | exact E2].
Qed.

Section AggregatorFacts.

Context {M : LibM}.

Lemma entropy_bits_empty : estimate_entropy_bits "" = PyFloat.zero.
Proof.
  unfold estimate_entropy_bits. destruct (log2_pool "") as [F _].
  change (PyFloat.of_int (PyStr.len "")) with (S754_zero false).
  destruct (libm_log2 (PyFloat.of_int (_char_pool_size ""))) as [[|] | [|] | | [|] m e];
    try contradiction; reflexivity.
Qed.

Lemma raw_spec_range (p : string) :
  PyStr.len p < 2 ^ 63 -> 0 <= raw_spec p <= 100.
Proof.
  intros H. unfold raw_spec, entropy_bonus_spec.
  destruct (entropy_bonus_floor p H) as [_ F].
  pose proof (class_count_range p) as C.
  assert (V : 0 <= variety_spec (class_count p) <= 35).
  { assert (E : class_count p = 0 \/ class_count p = 1 \/ class_count p = 2
                \/ class_count p = 3 \/ class_count p = 4) by lia.
    destruct E as [-> | [-> | [-> | [-> | ->]]]]; simpl; lia. }
  assert (B : 0 <= length_band_spec (PyStr.len p) <= 40).
  { unfold length_band_spec.
    destruct (PyStr.len p <? 6), (PyStr.len p <=? 7), (PyStr.len p <=? 11),
      (PyStr.len p <=? 15); lia. }
  lia.
Qed.

End AggregatorFacts.

(** X6: the entropy estimate of a password is always a finite float that is
    zero or positive, never a NaN, an infinity or a negative number; for the
    empty password it is [0.0]. *)
Theorem X6_entropy_bits_is_finite (M : LibM) (p : string) :
  PyStr.len p < 2 ^ 63 ->
  PyFloat.is_nonneg_finite (estimate_entropy_bits p) = true
  /\ estimate_entropy_bits "" = S754_zero false.
Proof.
  intros H. split; [| apply entropy_bits_empty].
  apply FloatFacts.is_nonneg_finite_iff, entropy_bits_finite, H.
Qed.

Lemma X6_entropy_bits_is_finite_witness :
  PyFloat.is_nonneg_finite (estimate_entropy_bits "Taco!River7-Moons") = true
  /\ estimate_entropy_bits "" = S754_zero false.
Proof.
  apply (X6_entropy_bits_is_finite ref_libm "Taco!River7-Moons"). reflexivity.
Defined.

(** X7: the raw score never exceeds 100 (40 + 35 + 25), so the upper clamp
    of the final score changes nothing: the final score is the raw score
    minus the penalty, or 0 when that is negative.  It never exceeds the raw
    score and equals it when no detector fires. *)
Theorem X7_upper_clamp_never_binds (M : LibM) (p : string) :
  p <> "" -> PyStr.len p < 2 ^ 63 ->
  exists bits raw fb st,
    score_before_penalty p = Ok (bits, raw, fb)
    /\ score_locals p = Ok st
    /\ 0 <= raw <= 100
    /\ l_score st
       = Z.max 0 (raw - (_find_sequences p * 8 + _repetition_penalty p * 8
                         + _dictionary_hits p * 12))
    /\ l_score st <= raw
    /\ (_find_sequences p = 0 -> _repetition_penalty p = 0 ->
        _dictionary_hits p = 0 -> l_score st = raw).
Proof.
  intros Hp Hl.
  destruct (score_locals_final p Hl) as (st & Hst & _ & Hs & _).
  pose proof (raw_spec_range p Hl) as R.
  pose proof (find_sequences_nonneg p). pose proof (repetition_penalty_range p).
  pose proof (dictionary_hits_nonneg p).
  exists (estimate_entropy_bits p), (raw_spec p),
    (if PyStr.len p <? 6 then [msg_length] else []), st.
  split; [apply (score_before_penalty_spec p Hl) |].
  split; [exact Hst |]. split; [exact R |].
  rewrite Hs. unfold final_spec, penalty_spec. repeat split; lia.
Qed.

Lemma X7_upper_clamp_never_binds_witness :
  let p := "Password123" in
  exists bits raw fb st,
    score_before_penalty p = Ok (bits, raw, fb)
    /\ score_locals p = Ok st
    /\ 0 <= raw <= 100
    /\ l_score st
       = Z.max 0 (raw - (_find_sequences p * 8 + _repetition_penalty p * 8
                         + _dictionary_hits p * 12))
    /\ l_score st <= raw
    /\ (_find_sequences p = 0 -> _repetition_penalty p = 0 ->
        _dictionary_hits p = 0 -> l_score st = raw).
Proof.
  apply (X7_upper_clamp_never_binds ref_libm "Password123").
  - discriminate.
  - reflexivity.
Defined.

(** X8: on a float number of bits [crack_time_estimates] raises
    [OverflowError] exactly when the float power overflows, whatever the
    guess rate; otherwise it raises [ZeroDivisionError] exactly when the guess
    rate is zero; otherwise it returns the two estimates. *)
Theorem X8_crack_time_errors (M : LibM) (b gps : float) :
  (pow_overflows b = true ->
   crack_time_estimates (Float b) gps = Raise OverflowError)
  /\ (pow_overflows b = false -> PyFloat.is_zero gps = true ->
      crack_time_estimates (Float b) gps = Raise ZeroDivisionError)
  /\ (pow_overflows b = false -> PyFloat.is_zero gps = false ->
      exists est, crack_time_estimates (Float b) gps = Ok est).
Proof. apply crack_time_float_cases. Qed.

(** X9: [score_password] fails in one way only: for a non-empty password
    whose float power [2 ** (bits - 1)] overflows it raises [OverflowError].
    For the empty password and for every other password it returns a
    result; it never raises an index, value or division error. *)
Theorem X9_score_password_errors (M : LibM) (p : string) :
  PyStr.len p < 2 ^ 63 ->
  (forall e, score_password p = Raise e ->
             e = OverflowError /\ p <> ""
             /\ pow_overflows (estimate_entropy_bits p) = true)
  /\ (p <> "" -> pow_overflows (estimate_entropy_bits p) = true ->
      score_password p = Raise OverflowError)
  /\ (p = "" \/ pow_overflows (estimate_entropy_bits p) = false ->
      exists r, score_password p = Ok r).
Proof.
  intros Hl.
  destruct (score_password_cases p Hl) as [(Hp & Ho & E) | (H & r & E)].
  - split; [| split].
    + intros e He. rewrite E in He. injection He as <-. auto.
    + intros _ _. exact E.
    + intros [-> | Hf]; [contradiction | congruence].
  - split; [| split].
    + intros e He. rewrite E in He. discriminate.
    + intros Hp Ho. destruct H as [-> | Hf]; [contradiction | congruence].
    + intros _. exists r. exact E.
Qed.

Lemma X9_score_password_errors_witness :
  let p := PyStr.times "a" 400 in
  (forall e, score_password p = Raise e ->
             e = OverflowError /\ p <> ""
             /\ pow_overflows (estimate_entropy_bits p) = true)
  /\ (p <> "" -> pow_overflows (estimate_entropy_bits p) = true ->
      score_password p = Raise OverflowError)
  /\ (p = "" \/ pow_overflows (estimate_entropy_bits p) = false ->
      exists r, score_password p = Ok r).
Proof.
  apply (X9_score_password_errors ref_libm (PyStr.times "a" 400)). reflexivity.
Defined.

(** * Floats: exact conversions and the division by four *)

Module FloatMore.

Import PyFloat FloatSpec FloatFacts.

Lemma dhe_exact (a D : Z) : 0 < D -> div_half_even (a * D) D = a.
Proof.
  intros H. unfold div_half_even. rewrite Z.div_mul by lia. rewrite Z_mod_mult.
  destruct (Z.compare_spec (2 * 0) D); try lia; reflexivity.
Qed.

Lemma round_int_exact (n : Z) :
  0 <= n < 2 ^ 53 -> val (round_int (n * 2 ^ 2148)) = n * 2 ^ 1074.
Proof.
  intros H. destruct (Z.eq_dec n 0) as [-> | N]; [reflexivity |].
  destruct (round_int_spec (n * 2 ^ 2148)) as [_ ->].
  { pose proof (pow2_pos 2148 ltac:(lia)). lia. }
  assert (D : 1 <= Zdigits2 n <= 53).
  { split; [rewrite Zdigits2_log2 by lia; pose proof (Z.log2_nonneg n); lia |].
    apply Zdigits2_le; lia. }
  assert (R : rv (n * 2 ^ 2148) = n * 2 ^ 1074).
  { unfold rv, rmant, rexp. rewrite Zdigits2_shift by lia.
    replace (fexp64 (Zdigits2 n + 2148 - 2148)) with (Zdigits2 n - 53)
      by (unfold fexp64; lia).
    replace (n * 2 ^ 2148) with (n * 2 ^ (53 - Zdigits2 n) * 2 ^ (Zdigits2 n - 53 + 2148)).
    - rewrite dhe_exact by (apply pow2_pos; lia).
      rewrite <- Z.mul_assoc, <- Z.pow_add_r by lia. f_equal. f_equal. lia.
    - rewrite <- Z.mul_assoc, <- Z.pow_add_r by lia. f_equal. f_equal. lia. }
  rewrite R. apply Z.min_l.
  apply Z.le_trans with (2 ^ 53 * 2 ^ 1074).
  - apply Z.mul_le_mono_nonneg_r; [apply Z.lt_le_incl, pow2_pos; lia | lia].
  - rewrite <- Z.pow_add_r by lia. apply pow2_le. lia.
Qed.

Lemma of_int_exact (n : Z) : 0 <= n < 2 ^ 53 -> val (of_int n) = n * 2 ^ 1074.
Proof. intros H. rewrite of_int_round by lia. apply round_int_exact, H. Qed.

Lemma floor_val (x : float) :
  finite_nonneg x -> float_floor x = val x / 2 ^ 1074.
Proof.
  destruct x as [[|] | [|] | | [|] m e]; cbn [finite_nonneg]; try contradiction.
  - intros _. reflexivity.
  - intros B. apply bounded_facts in B as (He & _). cbn [float_floor val].
    destruct e as [| k | k].
    + rewrite Z.add_0_l, Z.div_mul by (apply Z.pow_nonzero; lia).
      rewrite Z.pow_0_r. lia.
    + replace (Z.pos m * 2 ^ (Z.pos k + 1074))
        with (Z.pos m * 2 ^ Z.pos k * 2 ^ 1074)
        by (rewrite Z.pow_add_r by lia; ring).
      rewrite Z.div_mul; [reflexivity | apply Z.pow_nonzero; lia].
    + replace (2 ^ 1074) with (2 ^ (Z.neg k + 1074) * 2 ^ Z.pos k)
        by (rewrite <- Z.pow_add_r by lia; f_equal; lia).
      rewrite (Z.mul_comm (Z.pos m)).
      rewrite Z.div_mul_cancel_l; try (apply Z.pow_nonzero; lia). reflexivity.
Qed.

Lemma round_aux_int_Z (mz e : Z) :
  0 < mz -> -2148 <= e -> e <= fexp64 (Zdigits2 mz + e) ->
  binary_round_aux prec emax false mz e loc_Exact = round_int (mz * 2 ^ (e + 2148)).
Proof.
  destruct mz as [| p | p]; try lia. intros _. apply round_aux_int.
Qed.

Lemma loc_of_record_of_loc (q : Z) (l : location) :
  loc_of_shr_record (shr_record_of_loc q l) = l.
Proof. destruct l as [| [| |]]; reflexivity. Qed.

(** A rounding at the smallest exponent of a mantissa that fits: only the
    last place is decided. *)
Lemma round_aux_smallest (q : Z) (l : location) :
  0 <= q < 2 ^ 52 ->
  binary_round_aux prec emax false q (-1074) l
  = match round_nearest_even q l with
    | Zpos m1 => S754_finite false m1 (-1074)
    | _ => S754_zero false
    end.
Proof.
  intros Hq. unfold binary_round_aux, shr_fexp. rewrite fexp_fexp64, shr_nat.
  assert (D : 0 <= Zdigits2 q <= 52).
  { split; [apply Zdigits2_nonneg | apply Zdigits2_le; lia]. }
  replace (fexp64 (Zdigits2 q + -1074) - -1074) with 0 by (unfold fexp64; lia).
  change (Z.to_nat 0) with 0%nat. change (-1074 + Z.max 0 0) with (-1074).
  cbn [Nat.iter nat_rect].
  rewrite loc_of_record_of_loc, shr_record_of_loc_m.
  pose proof (rne_bounds q l) as B.
  set (m1 := round_nearest_even q l) in *.
  rewrite fexp_fexp64, shr_nat.
  assert (D1 : 0 <= Zdigits2 m1 <= 53).
  { split; [apply Zdigits2_nonneg |]. apply Zdigits2_le; lia. }
  replace (fexp64 (Zdigits2 m1 + -1074) - -1074) with 0
    by (unfold fexp64; lia).
  change (Z.to_nat 0) with 0%nat. change (-1074 + Z.max 0 0) with (-1074).
  cbn [Nat.iter nat_rect shr_record_of_loc shr_m].
  destruct m1 as [| p | p]; try lia; reflexivity.
Qed.

Lemma div4_round (x : float) :
  finite_nonneg x -> div x four = round_int (val x * 2 ^ 1072).
Proof.
  intros Hx.
  destruct x as [[|] | [|] | | [|] m e]; try contradiction; [reflexivity |].
  cbn [finite_nonneg] in Hx. apply bounded_facts in Hx as (He & Hd & _).
  unfold div, four, SFdiv, SFdiv_core_binary. rewrite fexp_fexp64.
  change (Zdigits2 4503599627370496) with 53. cbn [xorb val].
  set (d := Zdigits2 (Z.pos m)) in *.
  set (e' := Z.min (fexp64 (d + e - (53 + -50))) (e - -50)).
  set (s := e - -50 - e').
  assert (Hs : 0 <= s) by (unfold s, e'; lia).
  set (m' := match s with Z.pos _ => Z.shiftl (Z.pos m) s | 0 => Z.pos m | Z.neg _ => 0 end).
  assert (Hm' : m' = Z.pos m * 2 ^ s).
  { unfold m'. destruct s as [| k | k]; try lia. apply Z.shiftl_mul_pow2. lia. }
  rewrite (surjective_pairing (Z.div_eucl m' 4503599627370496)).
  change (fst (Z.div_eucl m' 4503599627370496)) with (m' / 2 ^ 52).
  change (snd (Z.div_eucl m' 4503599627370496)) with (m' mod 2 ^ 52).
  replace (Z.pos m * 2 ^ (e + 1074) * 2 ^ 1072) with (Z.pos m * 2 ^ (e + 2146))
    by (rewrite <- Z.mul_assoc, <- Z.pow_add_r by lia; f_equal; f_equal; lia).
  destruct (Z.le_gt_cases (-1072) e) as [Hbig | Hsmall].
  - (* the quotient is exact *)
    assert (S52 : 52 <= s) by (unfold s, e', fexp64; lia).
    assert (Hq : m' = Z.pos m * 2 ^ (s - 52) * 2 ^ 52).
    { rewrite Hm', <- Z.mul_assoc, <- Z.pow_add_r by lia. f_equal. f_equal. lia. }
    rewrite Hq, Z.div_mul by (apply Z.pow_nonzero; lia). rewrite Z_mod_mult.
    change (new_location 4503599627370496 0) with loc_Exact.
    pose proof (pow2_pos (s - 52) ltac:(lia)) as P.
    rewrite round_aux_int_Z.
    + f_equal. rewrite <- Z.mul_assoc, <- Z.pow_add_r by (unfold e', fexp64; lia).
      f_equal. f_equal. unfold s. lia.
    + lia.
    + unfold e', fexp64. lia.
    + rewrite Zdigits2_shift by lia. fold d. unfold s, e', fexp64. lia.
  - (* the result is subnormal *)
    assert (E' : e' = -1074) by (unfold e', fexp64; lia).
    set (k := 52 - s).
    assert (Hk : 1 <= k <= 2) by (unfold k, s; lia).
    assert (Ps : 0 < 2 ^ s) by (apply pow2_pos; lia).
    assert (Pk : 0 < 2 ^ k) by (apply pow2_pos; lia).
    assert (H52 : 2 ^ 52 = 2 ^ k * 2 ^ s).
    { rewrite <- Z.pow_add_r by lia. f_equal. unfold k. lia. }
    assert (Hq : m' / 2 ^ 52 = Z.pos m / 2 ^ k).
    { rewrite Hm', H52. apply Z.div_mul_cancel_r; lia. }
    assert (Hr : m' mod 2 ^ 52 = Z.pos m mod 2 ^ k * 2 ^ s).
    { rewrite Hm', H52. apply Zmult_mod_distr_r. }
    rewrite Hq, Hr, E'.
    assert (Hlt : Z.pos m < 2 ^ 53).
    { pose proof (Zdigits2_bounds (Z.pos m) ltac:(lia)) as [_ U]. fold d in U.
      pose proof (pow2_le d 53 ltac:(lia)). lia. }
    assert (Q : 0 <= Z.pos m / 2 ^ k < 2 ^ 52).
    { split; [apply Z.div_pos; lia |]. apply Z.div_lt_upper_bound; [lia |].
      apply Z.lt_le_trans with (2 ^ 53); [lia |].
      change (2 ^ 53) with (2 ^ 1 * 2 ^ 52).
      apply Z.mul_le_mono_nonneg_r; [lia | apply pow2_le; lia]. }
    rewrite round_aux_smallest by exact Q.
    assert (R : round_nearest_even (Z.pos m / 2 ^ k)
                  (new_location 4503599627370496 (Z.pos m mod 2 ^ k * 2 ^ s))
                = div_half_even (Z.pos m) (2 ^ k)).
    { unfold new_location. change (Z.even 4503599627370496) with true.
      cbv iota. unfold new_location_even, div_half_even.
      pose proof (Z.mod_pos_bound (Z.pos m) (2 ^ k) Pk) as Bm.
      change 4503599627370496 with (2 ^ 52). rewrite H52.
      replace (2 * (Z.pos m mod 2 ^ k * 2 ^ s))
        with (2 * (Z.pos m mod 2 ^ k) * 2 ^ s) by ring.
      rewrite <- Zmult_compare_compat_r by lia.
      destruct (Z.eqb_spec (Z.pos m mod 2 ^ k * 2 ^ s) 0) as [Z0 | NZ].
      - assert (Z.pos m mod 2 ^ k = 0) by nia. rewrite H.
        destruct (Z.compare_spec (2 * 0) (2 ^ k)); try lia. reflexivity.
      - reflexivity. }
    rewrite R. unfold round_int.
    rewrite Zdigits2_shift by lia. fold d.
    replace (fexp64 (d + (e + 2146) - 2148)) with (-1074) by (unfold fexp64; lia).
    replace (2 ^ (-1074 + 2148)) with (2 ^ k * 2 ^ (e + 2146))
      by (rewrite <- Z.pow_add_r by lia; f_equal; unfold k, s; lia).
    rewrite dhe_scale by (try apply pow2_pos; lia).
    pose proof (dhe_bounds (Z.pos m) (2 ^ k) Pk) as Bq.
    set (q := div_half_even (Z.pos m) (2 ^ k)) in *.
    destruct (Z.eqb_spec q 0) as [-> | NZ]; [reflexivity |].
    destruct (Z.ltb_spec q (2 ^ 53)); [| lia].
    destruct q as [| qp | qp]; try lia. reflexivity.
Qed.

Lemma finite_of_signed (y : float) :
  nonneg_float y -> finite_signed false y -> finite_nonneg y.
Proof.
  destruct y as [[|] | [|] | | [|] m e]; simpl; intros; try contradiction; auto.
Qed.

Lemma div4_finite_nonneg (x : float) :
  finite_nonneg x -> finite_nonneg (div x four).
Proof.
  intros Hx. apply finite_of_signed; [| apply div4_finite; exact Hx].
  rewrite div4_round by exact Hx. apply round_int_spec.
  pose proof (val_nonneg x). pose proof (pow2_pos 1072 ltac:(lia)). lia.
Qed.

(** The floor of a quarter grows with the value. *)
Lemma floor_div4_mono (x y : float) :
  finite_nonneg x -> finite_nonneg y -> val x <= val y ->
  float_floor (div x four) <= float_floor (div y four).
Proof.
  intros Hx Hy H.
  rewrite !floor_val by (apply div4_finite_nonneg; assumption).
  apply Z.div_le_mono; [apply pow2_pos; lia |].
  rewrite !div4_round by assumption. apply round_int_mono.
  pose proof (val_nonneg x). pose proof (pow2_pos 1072 ltac:(lia)). split; [lia |].
  apply Z.mul_le_mono_nonneg_r; lia.
Qed.

(** A float that is at most [4 n] has a quarter whose floor is at most
    [n]. *)
Lemma floor_div4_le (x : float) (n : Z) :
  finite_nonneg x -> 0 <= n < 2 ^ 51 -> val x <= 4 * n * 2 ^ 1074 ->
  float_floor (div x four) <= n.
Proof.
  intros Hx Hn H.
  rewrite floor_val by (apply div4_finite_nonneg; assumption).
  apply Z.div_le_upper_bound; [apply pow2_pos; lia |].
  rewrite div4_round by assumption. rewrite (Z.mul_comm (2 ^ 1074)).
  rewrite <- (round_int_exact n) by (pose proof (pow2_le 51 53 ltac:(lia)); lia).
  apply round_int_mono.
  pose proof (val_nonneg x). pose proof (pow2_pos 1072 ltac:(lia)). split; [lia |].
  replace (n * 2 ^ 2148) with (4 * n * 2 ^ 1074 * 2 ^ 1072).
  - apply Z.mul_le_mono_nonneg_r; lia.
  - change (2 ^ 2148) with (4 * 2 ^ 1074 * 2 ^ 1072). ring.
Qed.

(** The product of a length below [2^50] and a float of at most 8 is at most
    eight times the length. *)
Lemma mul_length_le (n : Z) (c : float) :
  0 <= n < 2 ^ 50 -> finite_nonneg c -> val c <= 2 ^ 1077 ->
  val (mul (of_int n) c) <= 8 * n * 2 ^ 1074.
Proof.
  intros Hn Hc Hv.
  assert (N63 : 0 <= n < 2 ^ 63) by (pose proof (pow2_le 50 63 ltac:(lia)); lia).
  assert (N53 : 0 <= n < 2 ^ 53) by (pose proof (pow2_le 50 53 ltac:(lia)); lia).
  destruct (of_int_finite n N63) as [Fx _].
  rewrite mul_round by assumption. rewrite (of_int_exact n N53).
  rewrite <- (round_int_exact (8 * n)).
  - apply round_int_mono. pose proof (val_nonneg c).
    pose proof (pow2_pos 1074 ltac:(lia)). split; [nia |].
    replace (8 * n * 2 ^ 2148) with (n * 2 ^ 1074 * 2 ^ 1077)
      by (change (2 ^ 2148) with (2 ^ 1074 * 2 ^ 1074);
          change (2 ^ 1077) with (8 * 2 ^ 1074); ring).
    apply Z.mul_le_mono_nonneg_l; nia.
  - change (2 ^ 53) with (8 * 2 ^ 50). lia.
Qed.

End FloatMore.

(** * The score and the length of the password *)

Section LengthFacts.

Context {M : LibM}.

Lemma entropy_bits_value_le (p : string) :
  PyStr.len p < 2 ^ 50 ->
  FloatSpec.val (estimate_entropy_bits p) <= 8 * PyStr.len p * 2 ^ 1074.
Proof.
  intros H. destruct (log2_pool p) as [F V].
  apply FloatMore.mul_length_le; [pose proof (len_nonneg p); lia | exact F | exact V].
Qed.

(** The entropy bonus is at most twice the length. *)
Lemma entropy_bonus_cap (p : string) :
  PyStr.len p < 2 ^ 63 ->
  0 <= entropy_bonus_spec (estimate_entropy_bits p) <= Z.min (2 * PyStr.len p) 25.
Proof.
  intros H. unfold entropy_bonus_spec.
  destruct (entropy_bonus_floor p H) as [_ F0]. split; [lia |].
  pose proof (len_nonneg p) as L0.
  destruct (Z.lt_ge_cases (PyStr.len p) 13) as [Hs | Hb]; [| lia].
  assert (H50 : PyStr.len p < 2 ^ 50).
  { apply Z.lt_le_trans with 13; [exact Hs |]. vm_compute. discriminate. }
  assert (B : FloatSpec.float_floor
                (PyFloat.div (estimate_entropy_bits p) (PyFloat.of_int 4))
              <= 2 * PyStr.len p).
  { rewrite FloatFacts.of_int_4. apply FloatMore.floor_div4_le.
    - apply entropy_bits_finite, H.
    - split; [lia |]. apply Z.lt_le_trans with 26; [lia |]. vm_compute. discriminate.
    - pose proof (entropy_bits_value_le p H50). lia. }
  lia.
Qed.

Lemma entropy_bonus_mono (p1 p2 : string) :
  _char_pool_size p1 = _char_pool_size p2 ->
  PyStr.len p1 <= PyStr.len p2 -> PyStr.len p2 < 2 ^ 63 ->
  entropy_bonus_spec (estimate_entropy_bits p1)
  <= entropy_bonus_spec (estimate_entropy_bits p2).
Proof.
  intros Hpool Hle Hlt. unfold entropy_bonus_spec.
  assert (F1 : FloatSpec.finite_nonneg (estimate_entropy_bits p1))
    by (apply entropy_bits_finite; lia).
  assert (F2 : FloatSpec.finite_nonneg (estimate_entropy_bits p2))
    by (apply entropy_bits_finite; lia).
  assert (V : FloatSpec.val (estimate_entropy_bits p1)
              <= FloatSpec.val (estimate_entropy_bits p2)).
  { apply FloatFacts.leb_val; try (apply FloatFacts.finite_nonneg_nonneg; assumption).
    unfold estimate_entropy_bits. rewrite Hpool.
    destruct (log2_pool p2) as [F _].
    apply FloatFacts.mul_length_mono; [| exact Hlt | exact F].
    pose proof (len_nonneg p1). lia. }
  rewrite FloatFacts.of_int_4.
  pose proof (FloatMore.floor_div4_mono _ _ F1 F2 V). lia.
Qed.

Lemma length_band_mono (a b : Z) : a <= b -> length_band_spec a <= length_band_spec b.
Proof.
  intros H. unfold length_band_spec.
  destruct (Z.ltb_spec a 6), (Z.leb_spec a 7), (Z.leb_spec a 11), (Z.leb_spec a 15),
    (Z.ltb_spec b 6), (Z.leb_spec b 7), (Z.leb_spec b 11), (Z.leb_spec b 15); lia.
Qed.

Lemma same_classes_pool (p1 p2 : string) :
  _has_lower p1 = _has_lower p2 -> _has_upper p1 = _has_upper p2 ->
  _has_digit p1 = _has_digit p2 -> _has_symbol p1 = _has_symbol p2 ->
  _char_pool_size p1 = _char_pool_size p2 /\ class_count p1 = class_count p2.
Proof.
  intros Hlo Hup Hdi Hsy. unfold _char_pool_size, class_count.
  rewrite Hlo, Hup, Hdi, Hsy. split; reflexivity.
Qed.

Lemma raw_spec_cap (p : string) :
  PyStr.len p < 2 ^ 63 ->
  raw_spec p <= length_band_spec (PyStr.len p) + 35 + Z.min (2 * PyStr.len p) 25.
Proof.
  intros H. unfold raw_spec. pose proof (entropy_bonus_cap p H) as B.
  pose proof (class_count_range p) as C.
  assert (V : variety_spec (class_count p) <= 35).
  { assert (E : class_count p = 0 \/ class_count p = 1 \/ class_count p = 2
                \/ class_count p = 3 \/ class_count p = 4) by lia.
    destruct E as [-> | [-> | [-> | [-> | ->]]]]; simpl; lia. }
  lia.
Qed.

Lemma label_spec_high (s : Z) :
  (label_spec s = "Strong" -> 60 <= s) /\ (label_spec s = "Excellent" -> 80 <= s).
Proof.
  unfold label_spec.
  destruct (Z.ltb_spec s 20), (Z.ltb_spec s 40), (Z.ltb_spec s 60), (Z.ltb_spec s 80);
    split; intros E; try discriminate E; lia.
Qed.

Lemma final_spec_short (p : string) :
  PyStr.len p < 2 ^ 63 ->
  final_spec p <= length_band_spec (PyStr.len p) + 35 + Z.min (2 * PyStr.len p) 25
  /\ (PyStr.len p < 8 -> final_spec p < 60)
  /\ (PyStr.len p < 12 -> final_spec p < 80).
Proof.
  intros H. pose proof (raw_spec_cap p H) as C.
  pose proof (raw_spec_range p H) as R.
  pose proof (find_sequences_nonneg p). pose proof (repetition_penalty_range p).
  pose proof (dictionary_hits_nonneg p).
  assert (F : final_spec p <= raw_spec p) by (unfold final_spec, penalty_spec; lia).
  unfold length_band_spec in *.
  destruct (Z.ltb_spec (PyStr.len p) 6), (Z.leb_spec (PyStr.len p) 7),
    (Z.leb_spec (PyStr.len p) 11), (Z.leb_spec (PyStr.len p) 15);
    repeat split; lia.
Qed.

Lemma result_bits (p : string) (r : AnalysisResult) :
  p <> "" -> PyStr.len p < 2 ^ 63 -> score_password p = Ok r ->
  bits r = PyFloat.round2 (estimate_entropy_bits p)
  /\ crack_time_estimates (Float (estimate_entropy_bits p)) default_guesses_per_sec
     = Ok (estimates r).
Proof.
  intros Hp Hl H.
  destruct (score_password_nonempty p r Hp H) as (st & est & Es & Ec & ->).
  destruct (score_locals_final p Hl) as (st' & Hst & Hb & _).
  rewrite Hst in Es. injection Es as <-. rewrite Hb in Ec.
  cbn [bits estimates]. rewrite Hb. auto.
Qed.

End LengthFacts.

(** X10: the entropy bonus is at most twice the length, so the score of a
    password is at most its length band plus 35 plus [min(2 * length, 25)]:
    a password of fewer than 8 characters scores below 60 and is never rated
    "Strong" or "Excellent", and one of fewer than 12 characters scores below
    80 and is never rated "Excellent". *)
Theorem X10_high_labels_need_length (M : LibM) (p : string) :
  p <> "" -> PyStr.len p < 2 ^ 63 ->
  exists st,
    score_locals p = Ok st
    /\ l_score st
       <= length_band_spec (PyStr.len p) + 35 + Z.min (2 * PyStr.len p) 25
    /\ (PyStr.len p < 8 ->
        l_score st < 60 /\ l_label st <> "Strong" /\ l_label st <> "Excellent")
    /\ (PyStr.len p < 12 -> l_score st < 80 /\ l_label st <> "Excellent")
    /\ (forall r, score_password p = Ok r ->
          (label r = "Strong" -> 8 <= PyStr.len p)
          /\ (label r = "Excellent" -> 12 <= PyStr.len p)).
Proof.
  intros Hp Hl.
  destruct (score_locals_final p Hl) as (st & Hst & _ & Hs & _ & _ & _ & _ & Hlab).
  destruct (final_spec_short p Hl) as (C & S8 & S12).
  destruct (label_spec_high (final_spec p)) as [LS LE].
  exists st. split; [exact Hst |]. rewrite Hs, Hlab.
  split; [exact C |]. split; [| split].
  - intros H8. specialize (S8 H8). repeat split; try lia; intros E.
    + specialize (LS E). lia.
    + specialize (LE E). lia.
  - intros H12. specialize (S12 H12). split; [lia |]. intros E.
    specialize (LE E). lia.
  - intros r H.
    destruct (score_password_nonempty p r Hp H) as (st' & est & Es & _ & ->).
    rewrite Hst in Es. injection Es as <-. cbn [label]. rewrite Hlab.
    split; intros E.
    + specialize (LS E). destruct (Z.lt_ge_cases (PyStr.len p) 8) as [H8 |]; [| lia].
      specialize (S8 H8). lia.
    + specialize (LE E). destruct (Z.lt_ge_cases (PyStr.len p) 12) as [H12 |]; [| lia].
      specialize (S12 H12). lia.
Qed.

Lemma X10_high_labels_need_length_witness :
  let p := "aB3$xY9" in
  exists st,
    score_locals p = Ok st
    /\ l_score st
       <= length_band_spec (PyStr.len p) + 35 + Z.min (2 * PyStr.len p) 25
    /\ (PyStr.len p < 8 ->
        l_score st < 60 /\ l_label st <> "Strong" /\ l_label st <> "Excellent")
    /\ (PyStr.len p < 12 -> l_score st < 80 /\ l_label st <> "Excellent")
    /\ (forall r, score_password p = Ok r ->
          (label r = "Strong" -> 8 <= PyStr.len p)
          /\ (label r = "Excellent" -> 12 <= PyStr.len p)).
Proof.
  apply (X10_high_labels_need_length ref_libm "aB3$xY9").
  - discriminate.
  - reflexivity.
Defined.

(** X11: between two passwords with the same character classes present, the
    longer one has at least the raw score of the shorter one: length band and
    entropy bonus grow with the length, the variety score is the same. *)
Theorem X11_raw_score_grows_with_length (M : LibM) (p1 p2 : string) :
  _has_lower p1 = _has_lower p2 -> _has_upper p1 = _has_upper p2 ->
  _has_digit p1 = _has_digit p2 -> _has_symbol p1 = _has_symbol p2 ->
  PyStr.len p1 <= PyStr.len p2 -> PyStr.len p2 < 2 ^ 63 ->
  exists b1 raw1 f1 b2 raw2 f2,
    score_before_penalty p1 = Ok (b1, raw1, f1)
    /\ score_before_penalty p2 = Ok (b2, raw2, f2)
    /\ raw1 <= raw2.
Proof.
  intros Hlo Hup Hdi Hsy Hle Hlt.
  destruct (same_classes_pool p1 p2 Hlo Hup Hdi Hsy) as [Hpool Hcount].
  assert (H1 : PyStr.len p1 < 2 ^ 63) by lia.
  do 6 eexists.
  split; [apply (score_before_penalty_spec p1 H1) |].
  split; [apply (score_before_penalty_spec p2 Hlt) |].
  rewrite Hcount.
  pose proof (length_band_mono _ _ Hle).
  pose proof (entropy_bonus_mono p1 p2 Hpool Hle Hlt). lia.
Qed.

Lemma X11_raw_score_grows_with_length_witness :
  exists b1 raw1 f1 b2 raw2 f2,
    score_before_penalty "abc" = Ok (b1, raw1, f1)
    /\ score_before_penalty "abcxyzuvw" = Ok (b2, raw2, f2)
    /\ raw1 <= raw2.
Proof.
  apply (X11_raw_score_grows_with_length ref_libm "abc" "abcxyzuvw");
    try reflexivity.
  vm_compute. discriminate.
Defined.

(** X12: the bits and the crack-time estimates of a result depend on the
    length of the password and on the classes present only, not on the
    patterns detected: two passwords that agree on these get the same bits
    and the same estimates. *)
Theorem X12_estimates_ignore_patterns
  (M : LibM) (p1 p2 : string) (r1 r2 : AnalysisResult) :
  p1 <> "" -> PyStr.len p1 = PyStr.len p2 -> PyStr.len p1 < 2 ^ 63 ->
  _has_lower p1 = _has_lower p2 -> _has_upper p1 = _has_upper p2 ->
  _has_digit p1 = _has_digit p2 -> _has_symbol p1 = _has_symbol p2 ->
  score_password p1 = Ok r1 -> score_password p2 = Ok r2 ->
  bits r1 = bits r2 /\ estimates r1 = estimates r2.
Proof.
  intros Hp Hlen Hl Hlo Hup Hdi Hsy E1 E2.
  assert (Hp2 : p2 <> "").
  { intros ->. destruct p1; [contradiction | discriminate Hlen]. }
  destruct (same_classes_pool p1 p2 Hlo Hup Hdi Hsy) as [Hpool _].
  assert (Hb : estimate_entropy_bits p1 = estimate_entropy_bits p2).
  { unfold estimate_entropy_bits. rewrite Hpool, Hlen. reflexivity. }
  destruct (result_bits p1 r1 Hp Hl E1) as [B1 C1].
  destruct (result_bits p2 r2 Hp2 ltac:(lia) E2) as [B2 C2].
  rewrite Hb in B1, C1. split; [congruence |].
  rewrite C1 in C2. injection C2 as ->. reflexivity.
Qed.

Lemma X12_estimates_ignore_patterns_witness :
  exists r1 r2,
    score_password "aaaaaaaa" = Ok r1 /\ score_password "qmzpxkwl" = Ok r2
    /\ bits r1 = bits r2 /\ estimates r1 = estimates r2 /\ score r1 <> score r2.
Proof.
  destruct (score_password "aaaaaaaa") as [r1 | e1] eqn:E1;
    [| vm_compute in E1; discriminate E1].
  destruct (score_password "qmzpxkwl") as [r2 | e2] eqn:E2;
    [| vm_compute in E2; discriminate E2].
  exists r1, r2. split; [reflexivity |]. split; [reflexivity |].
  assert (Hne : "aaaaaaaa" <> "") by discriminate.
  destruct (X12_estimates_ignore_patterns ref_libm "aaaaaaaa" "qmzpxkwl" r1 r2
              Hne eq_refl eq_refl eq_refl eq_refl eq_refl eq_refl E1 E2)
    as [Hb He].
  split; [exact Hb |]. split; [exact He |].
  vm_compute in E1, E2. injection E1 as <-. injection E2 as <-.
  intros H. vm_compute in H. discriminate H.
Defined.
